(** * Result-set equivalence evaluator of the Text-To-SQL benchmark

    A shallow embedding of [src/evaluate/evaluate.py]: the value normalizer
    [normalize_value], the row and result-set normalizers [normalize] and
    [normalize_results], the comparator [is_similar] and the accuracy loop,
    together with the part of the Python runtime they rest on ([str.strip],
    [str.lower], [float], [round], [set], tuple and float equality).

    Conventions of the embedding:
    - a Python [str] is a [string] whose characters are the code points
      0..255 (Latin-1); on these [strip] and [lower] are exact;
    - a Python [float] is a binary64 number, kept as sign and magnitude
      with the magnitude counted in units of 2^-1074 (the smallest
      positive double), so that every finite double is an integer;
      [float], [/] and [round] round correctly, ties to even, as
      CPython does;
    - a Python [set] is a list without repetition, in insertion order;
      the verdict of the comparator does not depend on that order
      ([similar_sets_order]);
    - Python exceptions are values of [exn], carried by [result]. *)

From Stdlib Require Import ZArith List Bool Ascii String Lia Arith Permutation.
From Equations Require Import Equations.
Import ListNotations.

Open Scope Z_scope.

(** ** Exceptions *)

Inductive exn : Type :=
| OverflowError
| ValueError
| ZeroDivisionError
| KeyError.

Inductive result (A : Type) : Type :=
| Ok (a : A)
| Raise (e : exn).

Arguments Ok {A} a.
Arguments Raise {A} e.

Definition bind {A B : Type} (r : result A) (k : A -> result B) : result B :=
  match r with
  | Ok a => k a
  | Raise e => Raise e
  end.

Notation "x <- r ;; k" := (bind r (fun x => k))
  (at level 61, r at next level, right associativity).

Fixpoint mapM {A B : Type} (f : A -> result B) (l : list A) : result (list B) :=
  match l with
  | [] => Ok []
  | a :: l' => b <- f a ;; bs <- mapM f l' ;; Ok (b :: bs)
  end.

(** ** Strings: [str.strip] and [str.lower] on Latin-1 *)

Module PyStr.

(** [str.isspace] for one code point below 256: TAB..CR, FS..US, space,
    NEL and NBSP. *)
Definition is_space (c : ascii) : bool :=
  let n := N_of_ascii c in
  ((9 <=? n) && (n <=? 13) || (28 <=? n) && (n <=? 32) ||
   (n =? 133) || (n =? 160))%N.

(** [str.lower] for one code point below 256: A..Z and the accented
    capitals U+00C0..U+00DE (U+00D7, the multiplication sign, apart). *)
Definition lower_char (c : ascii) : ascii :=
  let n := N_of_ascii c in
  if ((65 <=? n) && (n <=? 90) ||
      (192 <=? n) && (n <=? 222) && negb (n =? 215))%N
  then ascii_of_N (n + 32) else c.

Fixpoint lower (s : string) : string :=
  match s with
  | EmptyString => EmptyString
  | String c s' => String (lower_char c) (lower s')
  end.

Fixpoint lstrip (s : string) : string :=
  match s with
  | EmptyString => EmptyString
  | String c s' => if is_space c then lstrip s' else s
  end.

Fixpoint rstrip (s : string) : string :=
  match s with
  | EmptyString => EmptyString
  | String c s' =>
      match rstrip s' with
      | EmptyString => if is_space c then EmptyString else String c EmptyString
      | r => String c r
      end
  end.

Definition strip (s : string) : string := rstrip (lstrip s).

(** The string is empty or starts with a character that is not space. *)
Definition no_lead (s : string) : Prop :=
  match s with
  | EmptyString => True
  | String c _ => is_space c = false
  end.

End PyStr.

(** ** Floats: binary64 with correct rounding *)

Module PyFloat.

(** Magnitudes are counted in units of 2^-1074. *)
Definition unit_scale : Z := 2 ^ 1074.

(** 2^1024 in these units: the first magnitude that is out of range. *)
Definition overflow_threshold : Z := 2 ^ 2098.

Inductive float : Type :=
| Nan
| Inf (neg : bool)
| Fin (neg : bool) (mag : Z).

(** Exponent of the unit in the last place of a magnitude: 53 significant
    bits, and no finer than the unit itself (subnormals). *)
Definition ulp_exp (n : Z) : Z := Z.max 0 (Z.log2 n - 52).

(** The magnitudes of finite doubles. *)
Definition representable (mag : Z) : Prop :=
  0 <= mag < overflow_threshold /\ mag mod 2 ^ ulp_exp mag = 0.

Definition valid (f : float) : Prop :=
  match f with
  | Fin _ mag => representable mag
  | _ => True
  end.

(** The integer nearest to [a / b], ties to even ([0 <= a], [0 < b]). *)
Definition round_half_even (a b : Z) : Z :=
  let q := a / b in
  match 2 * (a mod b) ?= b with
  | Lt => q
  | Gt => q + 1
  | Eq => if Z.even q then q else q + 1
  end.

(** The magnitude of the double nearest to [p / q], ties to even, before
    the range check ([0 <= p], [0 < q]). *)
Definition nearest_mag (p q : Z) : Z :=
  let e := ulp_exp (p * unit_scale / q) in
  round_half_even (p * unit_scale) (q * 2 ^ e) * 2 ^ e.

(** Correctly rounded conversion of the rational [p / q] with the given
    sign, as [strtod] does it: infinity beyond the range. *)
Definition of_rational (neg : bool) (p q : Z) : float :=
  let m := nearest_mag p q in
  if m <? overflow_threshold then Fin neg m else Inf neg.

(** [float(n)] for a Python int: [OverflowError] beyond the range. *)
Definition of_int (n : Z) : result float :=
  match of_rational (n <? 0) (Z.abs n) 1 with
  | Inf _ => Raise OverflowError
  | f => Ok f
  end.

(** A decimal literal [c * 10^e] of the program text, [0 <= c]. *)
Definition literal (c e : Z) : float :=
  if 0 <=? e then of_rational false (c * 10 ^ e) 1
  else of_rational false c (10 ^ (- e)).

(** [round(x, ndigits)] for a float and [0 <= ndigits]: the decimal
    nearest to [x] with [ndigits] fractional digits (ties to even on the
    exact binary value), converted back to the nearest double;
    [OverflowError] if that one is out of range. A NaN or an infinity
    is returned as it is. *)
Definition round (x : float) (ndigits : Z) : result float :=
  match x with
  | Fin neg mag =>
      let k := round_half_even (mag * 10 ^ ndigits) unit_scale in
      match of_rational neg k (10 ^ ndigits) with
      | Inf _ => Raise OverflowError
      | r => Ok r
      end
  | _ => Ok x
  end.

(** [a / b] on Python ints: true division, correctly rounded;
    [ZeroDivisionError] on a zero divisor. *)
Definition true_div (a b : Z) : result float :=
  if b =? 0 then Raise ZeroDivisionError
  else match of_rational (xorb (a <? 0) (b <? 0)) (Z.abs a) (Z.abs b) with
       | Inf _ => Raise OverflowError
       | f => Ok f
       end.

End PyFloat.

(** ** Decimals *)

(** A [decimal.Decimal]: a quiet or signalling NaN, an infinity, or
    [(-1)^neg * coeff * 10^exp]. *)
Inductive decimal : Type :=
| DNaN
| DsNaN
| DInf (neg : bool)
| DFin (neg : bool) (coeff : N) (exp : Z).

(** [float(d)]: through the decimal string, correctly rounded;
    [ValueError] on a signalling NaN, infinity beyond the range. *)
Definition float_of_decimal (d : decimal) : result PyFloat.float :=
  match d with
  | DNaN => Ok PyFloat.Nan
  | DsNaN => Raise ValueError
  | DInf neg => Ok (PyFloat.Inf neg)
  | DFin neg c e =>
      if 0 <=? e then Ok (PyFloat.of_rational neg (Z.of_N c * 10 ^ e) 1)
      else Ok (PyFloat.of_rational neg (Z.of_N c) (10 ^ (- e)))
  end.


(** ** Raw values *)

(** A cell as the database driver hands it over. [VOther] stands for
    the hashable values of any other type (dates, byte strings, ...):
    the program only passes them on and compares them. A list or a
    dict (an array or JSON column), which [set] cannot hold, is outside
    the model. *)
Inductive value : Type :=
| VStr (s : string)
| VBool (b : bool)
| VInt (n : Z)
| VFloat (f : PyFloat.float)
| VDecimal (d : decimal)
| VNone
| VOther (id : N).

(** *** Equality of values ([==]) *)

(** The exact number behind a numeric value; Python compares numbers of
    different types by their exact values. *)
Inductive number : Type :=
| NumNan
| NumInf (neg : bool)
| NumRat (n d : Z).

Definition number_of (v : value) : option number :=
  match v with
  | VBool b => Some (NumRat (Z.b2z b) 1)
  | VInt n => Some (NumRat n 1)
  | VFloat PyFloat.Nan => Some NumNan
  | VFloat (PyFloat.Inf s) => Some (NumInf s)
  | VFloat (PyFloat.Fin s m) =>
      Some (NumRat (if s then - m else m) PyFloat.unit_scale)
  | VDecimal DNaN | VDecimal DsNaN => Some NumNan
  | VDecimal (DInf s) => Some (NumInf s)
  | VDecimal (DFin s c e) =>
      let n := if s then - Z.of_N c else Z.of_N c in
      Some (if 0 <=? e then NumRat (n * 10 ^ e) 1 else NumRat n (10 ^ (- e)))
  | _ => None
  end.

Definition number_eqb (x y : number) : bool :=
  match x, y with
  | NumInf s, NumInf t => Bool.eqb s t
  | NumRat n d, NumRat n' d' => n * d' =? n' * d
  | _, _ => false
  end.

(** [v == w]. Every float that [round] returns is a fresh object, so a
    NaN cell is never identical to another one and the identity
    shortcut of containers never applies to it: a NaN equals nothing. *)
Definition py_eq (v w : value) : bool :=
  match v, w with
  | VStr s, VStr t => String.eqb s t
  | VNone, VNone => true
  | VOther i, VOther j => N.eqb i j
  | _, _ =>
      match number_of v, number_of w with
      | Some x, Some y => number_eqb x y
      | _, _ => false
      end
  end.

(** ** Sets ([set]), as lists without repetition in insertion order *)

Section PySet.

Context {A : Type} (eqb : A -> A -> bool).

(** [x in s] *)
Definition mem (x : A) (s : list A) : bool := existsb (eqb x) s.

Definition add (s : list A) (x : A) : list A :=
  if mem x s then s else s ++ [x].

(** [set(l)] *)
Definition set_of (l : list A) : list A := fold_left add l [].

(** [len(s)] *)
Definition len (s : list A) : Z := Z.of_nat (List.length s).

(** [s.issubset(t)] *)
Definition issubset (s t : list A) : bool :=
  (len s <=? len t) && forallb (fun x => mem x t) s.

(** [s == t] *)
Definition set_eq (s t : list A) : bool :=
  (len s =? len t) && forallb (fun x => mem x t) s.

End PySet.

(** ** The normalizers *)

Definition row : Type := list value.

(** Tuple equality: same length, equal items. *)
Fixpoint row_eq (r r' : row) : bool :=
  match r, r' with
  | [], [] => true
  | v :: t, v' :: t' => py_eq v v' && row_eq t t'
  | _, _ => false
  end.

(** The calls of [normalize_value] on itself go from text or a boolean
    to an int. *)
Definition rank (v : value) : nat :=
  match v with
  | VStr _ | VBool _ => 1
  | _ => 0
  end.

(** [s in {...}] for a set of string literals. *)
Definition in_strs (s : string) (l : list string) : bool :=
  existsb (String.eqb s) l.

Equations normalize_value (v : value) : result value by wf (rank v) lt :=
  normalize_value (VStr v) :=
    let v_lower := PyStr.lower (PyStr.strip v) in
    if in_strs v_lower ["true"; "yes"; "1"]%string
    then normalize_value (VInt 1)
    else if in_strs v_lower ["false"; "no"; "0"]%string
    then normalize_value (VInt 0)
    else Ok (VStr v_lower);
  normalize_value (VBool v) := normalize_value (VInt (Z.b2z v));
  normalize_value (VInt v) :=
    f <- PyFloat.of_int v ;; r <- PyFloat.round f 5 ;; Ok (VFloat r);
  normalize_value (VFloat v) :=
    r <- PyFloat.round v 5 ;; Ok (VFloat r);
  normalize_value (VDecimal v) :=
    f <- float_of_decimal v ;; r <- PyFloat.round f 5 ;; Ok (VFloat r);
  normalize_value v := Ok v.

Definition normalize (r : row) : result row := mapM normalize_value r.

Definition normalize_results (results : list row) : result (list row) :=
  rows <- mapM normalize results ;; Ok (set_of row_eq rows).

(** ** The comparator *)

(** What the query executor returns: a dict with the keys [columns],
    [data] and [row_count], or a dict with the key [error]. *)
Inductive exec_result : Type :=
| ExecData (columns : list string) (data : list row) (row_count : Z)
| ExecError (error : string).

(** ["data" in e] *)
Definition has_data (e : exec_result) : bool :=
  match e with
  | ExecData _ _ _ => true
  | ExecError _ => false
  end.

(** [e["data"]] *)
Definition get_data (e : exec_result) : result (list row) :=
  match e with
  | ExecData _ data _ => Ok data
  | ExecError _ => Raise KeyError
  end.

(** [set(row)]: the values of a row, as a set. *)
Definition value_set (r : row) : list value := set_of py_eq r.

(** The test of lines 40-41 on one predicted row. *)
Definition row_matches (res_a : list row) (row_p : row) : bool :=
  existsb (fun row_a => issubset py_eq (value_set row_a) (value_set row_p)) res_a
  || existsb (fun row_a => issubset py_eq (value_set row_p) (value_set row_a)) res_a.

(** The loop of lines 38-45 with [count] so far, over the rows of
    [res_p] still to visit. *)
Fixpoint similar_loop (res_a : list row) (count : Z) (rest : list row) : bool :=
  match rest with
  | [] => count =? len res_a
  | row_p :: rest' =>
      if row_matches res_a row_p
      then similar_loop res_a (count + 1) rest'
      else false
  end.

(** Lines 34-45: the decision on the two normalized result sets. *)
Definition similar_sets (res_a res_p : list row) : bool :=
  if set_eq row_eq res_a res_p then true
  else similar_loop res_a 0 res_p.

Definition is_similar (exec_a exec_p : exec_result) : result bool :=
  data_a <- get_data exec_a ;;
  res_a <- normalize_results data_a ;;
  data_p <- get_data exec_p ;;
  res_p <- normalize_results data_p ;;
  Ok (similar_sets res_a res_p).

(** ** The accuracy loop *)

(** A record of the two JSON files; only its [SQL] field is read. *)
Record entry : Type := { SQL : string }.

Record counters : Type := { correct : Z; total : Z }.

(** The figure shown after [=]: [round(correct/total, 3)]. *)
Definition accuracy (st : counters) : result PyFloat.float :=
  q <- PyFloat.true_div (correct st) (total st) ;; PyFloat.round q 3.

Section Harness.

(** The query executor, an external collaborator. *)
Variable execute_sql_query : string -> exec_result.

(** The body of the loop, lines 56-63, for one pair [(p, a)]. *)
Definition step (st : counters) (pa : entry * entry) : result counters :=
  let (p, a) := pa in
  let exec_a := execute_sql_query (SQL a) in
  let exec_p := execute_sql_query (SQL p) in
  ok <- (if has_data exec_p && has_data exec_a
         then is_similar exec_a exec_p else Ok false) ;;
  let st' := {| correct := if ok then correct st + 1 else correct st;
                total := total st + 1 |} in
  _ <- accuracy st' ;;
  Ok st'.

Fixpoint loop (st : counters) (pairs : list (entry * entry)) : result counters :=
  match pairs with
  | [] => Ok st
  | pa :: rest => st' <- step st pa ;; loop st' rest
  end.

(** Lines 50-65: the counters and the figure of the final line. *)
Definition evaluate (predicts actuals : list entry)
  : result (counters * PyFloat.float) :=
  st <- loop {| correct := 0; total := 0 |} (combine predicts actuals) ;;
  acc <- accuracy st ;;
  Ok (st, acc).

End Harness.


(** ** Notions used to state the properties *)

(** A float cell is a binary64 number. *)
Definition wf_value (v : value) : Prop :=
  match v with
  | VFloat f => PyFloat.valid f
  | _ => True
  end.

(** The cells on which [float] is defined: an int within the range of a
    double (this covers every integer type of the database), no
    signalling NaN. *)
Definition db_value (v : value) : Prop :=
  match v with
  | VInt n => Z.abs n < 2 ^ 1023
  | VFloat f => PyFloat.valid f
  | VDecimal d => d <> DsNaN
  | _ => True
  end.

Definition db_rows (rows : list row) : Prop := Forall (Forall db_value) rows.

(** What an executor over such a database returns. *)
Definition db_result (e : exec_result) : Prop :=
  match e with
  | ExecData _ data _ => db_rows data
  | ExecError _ => True
  end.

(** No item of the list equals a later one. *)
Fixpoint distinct {A : Type} (eqb : A -> A -> bool) (l : list A) : bool :=
  match l with
  | [] => true
  | x :: l' => negb (mem eqb x l') && distinct eqb l'
  end.

(** Every value of [r] is a value of [r']: inclusion of value sets. *)
Definition values_subset (r r' : row) : Prop :=
  forall v, In v r -> exists w, In w r' /\ py_eq v w = true.

(** Some row of [res_a] holds the values of [row_p], or the converse. *)
Definition has_match (res_a : list row) (row_p : row) : Prop :=
  exists row_a, In row_a res_a /\
    (values_subset row_a row_p \/ values_subset row_p row_a).

(** The number of rows of [res_p] that pass the test of the loop. *)
Definition matched_count (res_a res_p : list row) : Z :=
  len (filter (row_matches res_a) res_p).

(** The numeric branch of [normalize_value], for a float that is at hand. *)
Definition rounded (f : PyFloat.float) : result value :=
  r <- PyFloat.round f 5 ;; Ok (VFloat r).

(** An executor result that carries the given rows. *)
Definition data_only (rows : list row) : exec_result := ExecData [] rows (len rows).

(** The counters of a run: [correct] never exceeds [total]. *)
Definition counters_ok (st : counters) : Prop := 0 <= correct st <= total st.

(** * Properties *)

(** A goal that is a conjunction, cut into its parts. *)
Ltac conj_split := repeat match goal with |- _ /\ _ => split end.

(** ** Binary64 arithmetic *)

Module PyFloatFacts.
Import PyFloat.

Lemma round_half_even_spec a b :
  0 < b -> - b <= 2 * (round_half_even a b * b - a) <= b.
Proof.
  intros Hb. unfold round_half_even.
  pose proof (Z.div_mod a b ltac:(lia)) as Hdm.
  pose proof (Z.mod_pos_bound a b Hb) as Hr.
  destruct (Z.compare_spec (2 * (a mod b)) b);
    try destruct (Z.even (a / b)); nia.
Qed.

Lemma round_half_even_unique a b k :
  0 < b -> - b < 2 * (k * b - a) < b -> round_half_even a b = k.
Proof.
  intros Hb Hk. pose proof (round_half_even_spec a b Hb) as Hs.
  set (r := round_half_even a b) in *. nia.
Qed.

Lemma round_half_even_exact k b : 0 < b -> round_half_even (k * b) b = k.
Proof. intros Hb. apply round_half_even_unique; lia. Qed.

Lemma round_half_even_nonneg a b : 0 <= a -> 0 < b -> 0 <= round_half_even a b.
Proof.
  intros Ha Hb. pose proof (round_half_even_spec a b Hb).
  set (r := round_half_even a b) in *. nia.
Qed.

Lemma round_half_even_le a b k :
  0 < b -> a <= k * b -> round_half_even a b <= k.
Proof.
  intros Hb Hk. pose proof (round_half_even_spec a b Hb).
  set (r := round_half_even a b) in *. nia.
Qed.

Lemma round_half_even_ge a b k :
  0 < b -> k * b <= a -> k <= round_half_even a b.
Proof.
  intros Hb Hk. pose proof (round_half_even_spec a b Hb).
  set (r := round_half_even a b) in *. nia.
Qed.

(** The unit in the last place, binade by binade. *)

Lemma ulp_exp_nonneg n : 0 <= ulp_exp n.
Proof. unfold ulp_exp. lia. Qed.

Lemma ulp_exp_small n : n < 2 ^ 53 -> ulp_exp n = 0.
Proof.
  intros Hn. unfold ulp_exp.
  destruct (Z_le_gt_dec n 0) as [Hle | Hgt].
  - rewrite Z.log2_nonpos by lia. lia.
  - assert (Z.log2 n < 53) by (apply Z.log2_lt_pow2; lia). lia.
Qed.

Lemma ulp_exp_binade n e :
  0 <= e -> 2 ^ (52 + e) <= n < 2 ^ (53 + e) -> ulp_exp n = e.
Proof.
  intros He Hn. unfold ulp_exp.
  assert (Z.log2 n = 52 + e).
  { apply Z.log2_unique; [lia|]. replace (Z.succ (52 + e)) with (53 + e) by lia. lia. }
  lia.
Qed.

Lemma ulp_exp_pos_bounds n :
  0 < ulp_exp n -> 2 ^ (52 + ulp_exp n) <= n < 2 ^ (53 + ulp_exp n).
Proof.
  unfold ulp_exp. intros H.
  assert (Hn : 0 < n).
  { destruct (Z_le_gt_dec n 0); [|lia]. rewrite Z.log2_nonpos in H by lia. lia. }
  pose proof (Z.log2_spec n Hn) as Hs.
  replace (52 + Z.max 0 (Z.log2 n - 52)) with (Z.log2 n) by lia.
  replace (53 + Z.max 0 (Z.log2 n - 52)) with (Z.succ (Z.log2 n)) by lia.
  exact Hs.
Qed.

Lemma ulp_exp_zero_bound n : ulp_exp n = 0 -> n < 2 ^ 53.
Proof.
  unfold ulp_exp. intros H.
  destruct (Z_le_gt_dec n 0) as [Hle | Hgt]; [lia|].
  apply Z.log2_lt_pow2; lia.
Qed.

Lemma unit_scale_pos : 0 < unit_scale.
Proof. reflexivity. Qed.

Lemma div_bounds a b : 0 < b -> (a / b) * b <= a < (a / b + 1) * b.
Proof.
  intros Hb. pose proof (Z.div_mod a b ltac:(lia)).
  pose proof (Z.mod_pos_bound a b Hb). nia.
Qed.

Lemma pow2_pos e : 0 <= e -> 0 < 2 ^ e.
Proof. intros. apply Z.pow_pos_nonneg; lia. Qed.

(** The shape of [nearest_mag p q]: a mantissa of at most 53 bits times
    a power of two no smaller than the unit in the last place. *)
Lemma nearest_mag_shape p q :
  0 <= p -> 0 < q ->
  let e := ulp_exp (p * unit_scale / q) in
  let M := round_half_even (p * unit_scale) (q * 2 ^ e) in
  nearest_mag p q = M * 2 ^ e /\ 0 <= e /\ 0 <= M <= 2 ^ 53 /\
  (0 < e -> 2 ^ 52 <= M) /\
  - (q * 2 ^ e) <= 2 * (M * (q * 2 ^ e) - p * unit_scale) <= q * 2 ^ e.
Proof.
  intros Hp Hq e M.
  pose proof unit_scale_pos as HT.
  assert (He : 0 <= e) by apply ulp_exp_nonneg.
  assert (Hpe : 0 < 2 ^ e) by (apply pow2_pos; exact He).
  assert (Hb : 0 < q * 2 ^ e) by nia.
  pose proof (div_bounds (p * unit_scale) q Hq) as [HF1 HF2].
  set (F := p * unit_scale / q) in *.
  split; [reflexivity|]. split; [exact He|].
  split; [|split].
  - split.
    + apply round_half_even_nonneg; nia.
    + apply round_half_even_le; [exact Hb|].
      destruct (Z.eq_dec e 0) as [E0 | E0].
      * pose proof (ulp_exp_zero_bound F E0). rewrite E0. change (2 ^ 0) with 1. nia.
      * pose proof (ulp_exp_pos_bounds F ltac:(fold e; lia)) as [_ HU]. fold e in HU.
        rewrite Z.pow_add_r in HU by lia. nia.
  - intros Hpos. apply round_half_even_ge; [exact Hb|].
    pose proof (ulp_exp_pos_bounds F ltac:(fold e; lia)) as [HL _]. fold e in HL.
    rewrite Z.pow_add_r in HL by lia. nia.
  - apply round_half_even_spec. exact Hb.
Qed.

Lemma nearest_mag_nonneg p q : 0 <= p -> 0 < q -> 0 <= nearest_mag p q.
Proof.
  intros Hp Hq. destruct (nearest_mag_shape p q Hp Hq) as (-> & He & HM & _).
  pose proof (pow2_pos _ He). nia.
Qed.

(** A magnitude [M * 2^e] with [M] of at most 53 bits, normal when [e]
    is positive, is on the grid of its own binade. *)
Lemma on_grid M e :
  0 <= e -> 0 <= M <= 2 ^ 53 -> (0 < e -> 2 ^ 52 <= M) ->
  (M * 2 ^ e) mod 2 ^ ulp_exp (M * 2 ^ e) = 0.
Proof.
  intros He HM Hn. pose proof (pow2_pos e He) as Hpe.
  destruct (Z.eq_dec M (2 ^ 53)) as [-> | HM53].
  - rewrite (ulp_exp_binade _ (e + 1)); [| lia |].
    + replace (2 ^ 53 * 2 ^ e) with (2 ^ 52 * 2 ^ (e + 1)).
      * apply Z.mod_mul. pose proof (pow2_pos (e + 1)); lia.
      * rewrite (Z.pow_add_r 2 e 1) by lia. change (2 ^ 53) with (2 ^ 52 * 2). lia.
    + rewrite !Z.pow_add_r by lia. change (2 ^ 1) with 2. lia.
  - destruct (Z.eq_dec e 0) as [-> | E0].
    + change (2 ^ 0) with 1. rewrite Z.mul_1_r.
      rewrite ulp_exp_small by lia. apply Z.mod_1_r.
    + rewrite (ulp_exp_binade _ e); [| lia |].
      * apply Z.mod_mul. lia.
      * rewrite !Z.pow_add_r by lia. specialize (Hn ltac:(lia)). nia.
Qed.

Lemma nearest_mag_on_grid p q :
  0 <= p -> 0 < q ->
  nearest_mag p q mod 2 ^ ulp_exp (nearest_mag p q) = 0.
Proof.
  intros Hp Hq. destruct (nearest_mag_shape p q Hp Hq) as (-> & He & HM & Hn & _).
  apply on_grid; assumption.
Qed.

(** A magnitude on the grid is its own nearest double. *)
Lemma nearest_mag_exact p q m :
  0 < q -> 0 <= m -> m mod 2 ^ ulp_exp m = 0 ->
  p * unit_scale = m * q -> nearest_mag p q = m.
Proof.
  intros Hq Hm Hg Hpm. unfold nearest_mag. rewrite Hpm.
  rewrite Z.div_mul by lia.
  pose proof (ulp_exp_nonneg m) as He. pose proof (pow2_pos _ He) as Hpe.
  apply Z.mod_divide in Hg; [|lia]. destruct Hg as [c Hc].
  rewrite Hc at 1. replace (c * 2 ^ ulp_exp m * q) with (c * (q * 2 ^ ulp_exp m)) by ring.
  rewrite round_half_even_exact by nia. lia.
Qed.

(** A coarse bound: rounding at most doubles. *)
Lemma nearest_mag_bound p q :
  0 <= p -> 0 < q -> 2 * q * nearest_mag p q <= 3 * (p * unit_scale) + q.
Proof.
  intros Hp Hq. destruct (nearest_mag_shape p q Hp Hq) as (-> & He & HM & Hn & Herr).
  pose proof unit_scale_pos as HT.
  pose proof (div_bounds (p * unit_scale) q Hq) as [HF1 HF2].
  set (F := p * unit_scale / q) in *. set (e := ulp_exp F) in *.
  assert (Hpe : 2 ^ e <= 1 + F).
  { destruct (Z.eq_dec e 0) as [E0 | E0].
    - rewrite E0. change (2 ^ 0) with 1. assert (0 <= F) by (apply Z.div_pos; nia). lia.
    - pose proof (ulp_exp_pos_bounds F ltac:(fold e; lia)) as [HL _]. fold e in HL.
      rewrite Z.pow_add_r in HL by lia. pose proof (pow2_pos e He). nia. }
  set (M := round_half_even _ _) in *. nia.
Qed.

Lemma representable_shape D :
  representable D ->
  exists d, D = d * 2 ^ ulp_exp D /\ 0 <= d < 2 ^ 53.
Proof.
  intros [[HD0 _] Hg].
  pose proof (ulp_exp_nonneg D) as Hu. pose proof (pow2_pos _ Hu) as HP.
  apply Z.mod_divide in Hg; [|lia]. destruct Hg as [d Hd].
  exists d. split; [exact Hd|].
  assert (HD53 : D < 2 ^ 53 * 2 ^ ulp_exp D).
  { destruct (Z.eq_dec (ulp_exp D) 0) as [E0 | E0].
    - pose proof (ulp_exp_zero_bound D E0). rewrite E0. change (2 ^ 0) with 1. lia.
    - pose proof (ulp_exp_pos_bounds D ltac:(lia)) as [_ HU].
      rewrite Z.pow_add_r in HU by lia. exact HU. }
  set (P := 2 ^ ulp_exp D) in *. nia.
Qed.

(** No double is nearer to [p / q] than [nearest_mag p q]. *)
Lemma nearest_mag_nearest p q D :
  0 <= p -> 0 < q -> representable D ->
  Z.abs (nearest_mag p q * q - p * unit_scale) <= Z.abs (D * q - p * unit_scale).
Proof.
  intros Hp Hq HD.
  destruct (nearest_mag_shape p q Hp Hq) as (-> & He & HM & Hn & Herr).
  destruct (representable_shape D HD) as (d & Hd & Hd53).
  pose proof (ulp_exp_nonneg D) as Hu.
  set (u := ulp_exp D) in *.
  set (e := ulp_exp (p * unit_scale / q)) in *.
  set (M := round_half_even (p * unit_scale) (q * 2 ^ e)) in *.
  set (N := p * unit_scale) in *.
  pose proof (pow2_pos e He) as Hb. pose proof (pow2_pos u Hu) as HP.
  destruct (Z_le_gt_dec e u) as [Heu | Heu].
  - (* [D] is on the grid of the result *)
    assert (HPb : 2 ^ u = 2 ^ (u - e) * 2 ^ e).
    { rewrite <- Z.pow_add_r by lia. f_equal. lia. }
    pose proof (pow2_pos (u - e) ltac:(lia)) as HR.
    rewrite Hd, HPb. set (b := 2 ^ e) in *. set (R := 2 ^ (u - e)) in *.
    destruct (Z.eq_dec (d * R) M) as [E | E].
    + replace (d * (R * b) * q) with (M * b * q) by (rewrite <- E; ring). lia.
    + assert (q * b <= Z.abs (d * (R * b) * q - M * b * q)).
      { replace (d * (R * b) * q - M * b * q) with ((d * R - M) * (q * b)) by ring.
        rewrite Z.abs_mul. assert (1 <= Z.abs (d * R - M)) by lia.
        assert (Z.abs (q * b) = q * b) by (apply Z.abs_eq; nia). nia. }
      lia.
  - (* [D] lies below the binade of [p / q] *)
    assert (HPb : 2 ^ e = 2 ^ (e - u - 1) * 2 * 2 ^ u).
    { replace (2 ^ (e - u - 1) * 2) with (2 ^ (e - u - 1) * 2 ^ 1) by reflexivity.
      rewrite <- !Z.pow_add_r by lia. f_equal. lia. }
    pose proof (pow2_pos (e - u - 1) ltac:(lia)) as HR.
    specialize (Hn ltac:(lia)).
    pose proof (ulp_exp_pos_bounds (N / q) ltac:(fold e; lia)) as [HF _]. fold e in HF.
    rewrite Z.pow_add_r in HF by lia.
    pose proof (div_bounds N q Hq) as [HF1 _].
    rewrite Hd. rewrite HPb in *.
    set (P := 2 ^ u) in *. set (R := 2 ^ (e - u - 1)) in *.
    assert (H1 : 2 * d * P <= (2 ^ 53 - 1) * (R * 2 * P)) by nia.
    assert (H2 : 2 ^ 52 * (R * 2 * P) * q <= N) by nia.
    assert (H3 : q * (R * 2 * P) <= 2 * (N - d * P * q)) by nia.
    lia.
Qed.

(** Rounding a double to decimal digits and back stays in range. *)
Lemma round_in_range m c :
  representable m -> 0 < c ->
  nearest_mag (round_half_even (m * c) unit_scale) c < overflow_threshold.
Proof.
  intros [[Hm0 Hm1] Hg] Hc.
  pose proof unit_scale_pos as HT.
  destruct (Z_lt_le_dec (ulp_exp m) 1074) as [Hs | Hs].
  - assert (Hm : m < 2 ^ 1126).
    { destruct (Z.eq_dec (ulp_exp m) 0) as [E0 | E0].
      - pose proof (ulp_exp_zero_bound m E0). lia.
      - pose proof (ulp_exp_nonneg m).
        pose proof (ulp_exp_pos_bounds m ltac:(lia)) as [_ HU].
        eapply Z.lt_le_trans; [exact HU|]. apply Z.pow_le_mono_r; lia. }
    pose proof (round_half_even_spec (m * c) unit_scale HT) as Hk.
    pose proof (round_half_even_nonneg (m * c) unit_scale ltac:(nia) HT) as Hk0.
    set (k := round_half_even (m * c) unit_scale) in *.
    pose proof (nearest_mag_bound k c Hk0 Hc) as Hb.
    set (Y := nearest_mag k c) in *.
    assert (2 * c * Y <= c * (3 * m + 2 * unit_scale + 1)) by nia.
    assert (2 * Y <= 3 * m + 2 * unit_scale + 1) by nia.
    unfold overflow_threshold. unfold unit_scale in *. lia.
  - pose proof (pow2_pos (ulp_exp m) ltac:(lia)) as Hpe.
    apply Z.mod_divide in Hg; [|lia]. destruct Hg as [d Hd].
    assert (HP : 2 ^ ulp_exp m = 2 ^ (ulp_exp m - 1074) * unit_scale).
    { unfold unit_scale. rewrite <- Z.pow_add_r by lia. f_equal. lia. }
    assert (Hk : round_half_even (m * c) unit_scale = d * 2 ^ (ulp_exp m - 1074) * c).
    { rewrite Hd at 1. rewrite HP.
      replace (d * (2 ^ (ulp_exp m - 1074) * unit_scale) * c)
        with (d * 2 ^ (ulp_exp m - 1074) * c * unit_scale) by ring.
      apply round_half_even_exact. exact HT. }
    rewrite Hk. rewrite (nearest_mag_exact _ c m); [lia | lia | lia | |].
    + apply Z.mod_divide; [lia|]. exists d. exact Hd.
    + rewrite Hd at 2. rewrite HP. ring.
Qed.

Lemma of_rational_valid neg p q :
  0 <= p -> 0 < q -> valid (of_rational neg p q).
Proof.
  intros Hp Hq. unfold of_rational.
  destruct (Z.ltb_spec (nearest_mag p q) overflow_threshold); simpl; [|exact I].
  split; [split; [apply nearest_mag_nonneg; assumption | assumption]|].
  apply nearest_mag_on_grid; assumption.
Qed.

Lemma round_total x nd :
  valid x -> 0 <= nd -> exists r, round x nd = Ok r /\ valid r.
Proof.
  intros Hx Hnd. destruct x as [| s | s m]; simpl; try (eexists; split; [reflexivity | exact I]).
  assert (Hc : 0 < 10 ^ nd) by (apply Z.pow_pos_nonneg; lia).
  pose proof (round_in_range m (10 ^ nd) Hx Hc) as Hr.
  destruct Hx as [[Hm0 _] _].
  pose proof (round_half_even_nonneg (m * 10 ^ nd) unit_scale ltac:(nia) unit_scale_pos) as Hk0.
  pose proof (of_rational_valid s _ _ Hk0 Hc) as Hv.
  unfold of_rational in *.
  destruct (Z.ltb_spec (nearest_mag (round_half_even (m * 10 ^ nd) unit_scale) (10 ^ nd))
              overflow_threshold); [|lia].
  eexists; split; [reflexivity | exact Hv].
Qed.

(** When the double is a whole number of units of 1, its decimal
    rounding is exact. *)
Lemma round_trip_whole c Y d :
  0 < c -> 0 <= Y -> Y mod 2 ^ ulp_exp Y = 0 -> Y = d * unit_scale ->
  nearest_mag (round_half_even (Y * c) unit_scale) c = Y.
Proof.
  intros Hc HY Hg Hd.
  assert (Hk : round_half_even (Y * c) unit_scale = d * c).
  { rewrite Hd. replace (d * unit_scale * c) with (d * c * unit_scale) by ring.
    apply round_half_even_exact, unit_scale_pos. }
  rewrite Hk. apply nearest_mag_exact; [assumption..|]. rewrite Hd. ring.
Qed.

(** The decimal with 5 fractional digits nearest to a double that is
    itself the nearest double of such a decimal rounds back to it. *)
Lemma nearest_round_fixed k :
  0 <= k ->
  let Y := nearest_mag k (10 ^ 5) in
  nearest_mag (round_half_even (Y * 10 ^ 5) unit_scale) (10 ^ 5) = Y.
Proof.
  intros Hk Y.
  assert (Hc : 0 < 10 ^ 5) by reflexivity.
  assert (Hc1 : 2 ^ 16 < 10 ^ 5) by reflexivity.
  assert (Hc2 : 10 ^ 5 < 2 ^ 17) by reflexivity.
  pose proof unit_scale_pos as HT.
  pose proof (nearest_mag_on_grid k (10 ^ 5) Hk Hc) as Hgrid.
  pose proof (nearest_mag_nonneg k (10 ^ 5) Hk Hc) as HY0.
  destruct (nearest_mag_shape k (10 ^ 5) Hk Hc) as (HY & Hs & HM & Hn & Herr).
  fold Y in HY, Hgrid, HY0.
  set (c := 10 ^ 5) in *.
  set (s := ulp_exp (k * unit_scale / c)) in *.
  set (M := round_half_even (k * unit_scale) (c * 2 ^ s)) in *.
  pose proof (pow2_pos s Hs) as HP.
  destruct (Z_le_gt_dec s 1057) as [Hsmall | Hlarge].
  - (* the unit in the last place is finer than the decimal grid *)
    assert (HTs : unit_scale = 2 ^ (1074 - s) * 2 ^ s).
    { unfold unit_scale. rewrite <- Z.pow_add_r by lia. f_equal. lia. }
    assert (HR : 2 ^ 17 <= 2 ^ (1074 - s)) by (apply Z.pow_le_mono_r; lia).
    assert (Hk' : round_half_even (Y * c) unit_scale = k).
    { apply round_half_even_unique; [exact HT|]. rewrite HY.
      set (P := 2 ^ s) in *. set (R := 2 ^ (1074 - s)) in *. nia. }
    rewrite Hk'. reflexivity.
  - (* the unit in the last place is coarser *)
    assert (HPs : 2 ^ s = 2 ^ (s - 1058) * 2 ^ 1058).
    { rewrite <- Z.pow_add_r by lia. f_equal. lia. }
    assert (HT16 : unit_scale = 2 ^ 16 * 2 ^ 1058) by reflexivity.
    pose proof (pow2_pos (s - 1058) ltac:(lia)) as HQ.
    specialize (Hn ltac:(lia)).
    destruct (Z.eq_dec M (2 ^ 52)) as [E52 | N52];
      [| destruct (Z.eq_dec M (2 ^ 53)) as [E53 | N53]].
    + apply (round_trip_whole c Y (2 ^ 36 * 2 ^ (s - 1058))); try assumption.
      rewrite HY, E52, HPs, HT16. change (2 ^ 52) with (2 ^ 36 * 2 ^ 16). ring.
    + apply (round_trip_whole c Y (2 ^ 37 * 2 ^ (s - 1058))); try assumption.
      rewrite HY, E53, HPs, HT16. change (2 ^ 53) with (2 ^ 37 * 2 ^ 16). ring.
    + pose proof (round_half_even_spec (Y * c) unit_scale HT) as Hk'.
      set (k' := round_half_even (Y * c) unit_scale) in *.
      assert (HTb : unit_scale < c * 2 ^ s).
      { rewrite HPs, HT16. set (B := 2 ^ 1058) in *.
        assert (0 < B) by reflexivity. nia. }
      assert (HF : 2 ^ (52 + s) <= k' * unit_scale / c < 2 ^ (53 + s)).
      { rewrite !Z.pow_add_r by lia. split.
        - apply Z.div_le_lower_bound; [lia|]. rewrite HY in Hk'.
          set (P := 2 ^ s) in *. nia.
        - apply Z.div_lt_upper_bound; [lia|]. rewrite HY in Hk'.
          set (P := 2 ^ s) in *. nia. }
      unfold nearest_mag. rewrite (ulp_exp_binade _ s Hs HF).
      rewrite (round_half_even_unique _ _ M); [symmetry; exact HY | lia |].
      rewrite HY in Hk'. set (P := 2 ^ s) in *. nia.
Qed.

(** [round(round(x, 5), 5)] is [round(x, 5)], bit for bit. *)
Lemma round5_fixed x y :
  valid x -> round x 5 = Ok y -> round y 5 = Ok y.
Proof.
  intros Hx Hr. destruct x as [| s | s m].
  - injection Hr as <-. reflexivity.
  - injection Hr as <-. reflexivity.
  - destruct Hx as [[Hm0 _] _]. unfold round in Hr.
    pose proof (round_half_even_nonneg (m * 10 ^ 5) unit_scale ltac:(lia) unit_scale_pos) as Hk0.
    pose proof (nearest_round_fixed _ Hk0) as Hfix. cbv zeta in Hfix.
    set (k := round_half_even (m * 10 ^ 5) unit_scale) in *.
    unfold of_rational in Hr.
    destruct (Z.ltb_spec (nearest_mag k (10 ^ 5)) overflow_threshold) as [Hlt | Hge];
      [|discriminate].
    assert (Hy : y = Fin s (nearest_mag k (10 ^ 5))) by congruence.
    subst y. clear Hr.
    unfold round, of_rational. cbv zeta. rewrite Hfix.
    destruct (Z.ltb_spec (nearest_mag k (10 ^ 5)) overflow_threshold); [reflexivity | lia].
Qed.

End PyFloatFacts.

(** ** Strings *)

Module PyStrFacts.
Import PyStr.

Lemma lower_char_idem c : lower_char (lower_char c) = lower_char c.
Proof. destruct c as [[] [] [] [] [] [] [] []]; reflexivity. Qed.

Lemma is_space_lower_char c : is_space (lower_char c) = is_space c.
Proof. destruct c as [[] [] [] [] [] [] [] []]; reflexivity. Qed.

Lemma lower_idem s : lower (lower s) = lower s.
Proof. induction s as [| c s IH]; simpl; [reflexivity|]. now rewrite lower_char_idem, IH. Qed.

Lemma lstrip_lower s : lstrip (lower s) = lower (lstrip s).
Proof.
  induction s as [| c s IH]; simpl; [reflexivity|].
  rewrite is_space_lower_char. destruct (is_space c); [exact IH | reflexivity].
Qed.

Lemma rstrip_lower s : rstrip (lower s) = lower (rstrip s).
Proof.
  induction s as [| c s IH]; simpl; [reflexivity|].
  rewrite IH, is_space_lower_char.
  destruct (rstrip s); simpl; [destruct (is_space c)|]; reflexivity.
Qed.

Lemma strip_lower s : strip (lower s) = lower (strip s).
Proof. unfold strip. now rewrite lstrip_lower, rstrip_lower. Qed.

Lemma rstrip_idem s : rstrip (rstrip s) = rstrip s.
Proof.
  induction s as [| c s IH]; simpl; [reflexivity|].
  destruct (rstrip s) as [| d r] eqn:E.
  - destruct (is_space c) eqn:Ec; simpl; [reflexivity|]. now rewrite Ec.
  - change (rstrip (String c (String d r))) with
      (match rstrip (String d r) with
       | EmptyString => if is_space c then EmptyString else String c EmptyString
       | r' => String c r'
       end).
    rewrite IH. reflexivity.
Qed.

Lemma lstrip_no_lead s : no_lead (lstrip s).
Proof.
  induction s as [| c s IH]; simpl; [exact I|].
  destruct (is_space c) eqn:E; [exact IH | exact E].
Qed.

Lemma lstrip_rstrip s : no_lead s -> lstrip (rstrip s) = rstrip s.
Proof.
  destruct s as [| c s]; simpl; [reflexivity|]. intros Hc.
  destruct (rstrip s); rewrite ?Hc; simpl; rewrite Hc; reflexivity.
Qed.

Lemma strip_idem s : strip (strip s) = strip s.
Proof.
  unfold strip. rewrite lstrip_rstrip by apply lstrip_no_lead. apply rstrip_idem.
Qed.

(** The form [v.strip().lower()] is stable under strip and lower. *)
Lemma strip_lower_fixed s : lower (strip (lower (strip s))) = lower (strip s).
Proof. now rewrite strip_lower, strip_idem, lower_idem. Qed.

End PyStrFacts.

(** ** Equality of values is a partial equivalence *)

Lemma number_of_den v n d : number_of v = Some (NumRat n d) -> 0 < d.
Proof.
  destruct v as [s | b | z | f | dc | | i]; simpl; try discriminate.
  - intros [= _ <-]. lia.
  - intros [= _ <-]. lia.
  - destruct f; try discriminate. intros [= _ <-]. reflexivity.
  - destruct dc as [| | s | s c e]; try discriminate.
    destruct (Z.leb_spec 0 e); intros [= _ <-]; [lia|].
    apply Z.pow_pos_nonneg; lia.
Qed.

Lemma py_eq_numbers v w x y :
  number_of v = Some x -> number_of w = Some y -> py_eq v w = number_eqb x y.
Proof.
  intros Hx Hy.
  destruct v; try discriminate; destruct w; try discriminate;
    unfold py_eq; rewrite Hx, Hy; reflexivity.
Qed.

Lemma number_of_none v :
  number_of v = None -> (exists s, v = VStr s) \/ v = VNone \/ (exists i, v = VOther i).
Proof.
  destruct v as [s | b | z | f | d | | i]; simpl; try discriminate; eauto.
  - destruct f; discriminate.
  - destruct d as [| | s | s c e]; discriminate.
Qed.

Lemma py_eq_number_other v w x :
  number_of v = Some x -> number_of w = None ->
  py_eq v w = false /\ py_eq w v = false.
Proof.
  intros Hx Hw.
  destruct (number_of_none w Hw) as [(s & ->) | [-> | (i & ->)]];
    destruct v; try discriminate; unfold py_eq; rewrite Hx; split; reflexivity.
Qed.

Lemma py_eq_cases v w :
  py_eq v w = true <->
  (exists s, v = VStr s /\ w = VStr s) \/ (v = VNone /\ w = VNone) \/
  (exists i, v = VOther i /\ w = VOther i) \/
  (exists x y, number_of v = Some x /\ number_of w = Some y /\ number_eqb x y = true).
Proof.
  split.
  - intros H.
    destruct (number_of v) as [x|] eqn:Ex; destruct (number_of w) as [y|] eqn:Ey.
    + rewrite (py_eq_numbers _ _ _ _ Ex Ey) in H. right; right; right. eauto.
    + destruct (py_eq_number_other v w x Ex Ey). congruence.
    + destruct (py_eq_number_other w v y Ey Ex). congruence.
    + destruct (number_of_none v Ex) as [(s & ->) | [-> | (i & ->)]];
        destruct (number_of_none w Ey) as [(s' & ->) | [-> | (i' & ->)]];
        simpl in H; try discriminate.
      * apply String.eqb_eq in H. subst. left. eauto.
      * right; left. split; reflexivity.
      * apply N.eqb_eq in H. subst. right; right; left. eauto.
  - intros [(s & -> & ->) | [(-> & ->) | [(i & -> & ->) | (x & y & Hx & Hy & Hxy)]]].
    + simpl. apply String.eqb_refl.
    + reflexivity.
    + simpl. apply N.eqb_refl.
    + rewrite (py_eq_numbers _ _ _ _ Hx Hy). exact Hxy.
Qed.

Lemma number_eqb_sym x y : number_eqb x y = number_eqb y x.
Proof.
  destruct x, y; simpl; try reflexivity.
  - destruct neg, neg0; reflexivity.
  - apply Z.eqb_sym.
Qed.

Lemma py_eq_sym v w : py_eq v w = py_eq w v.
Proof.
  assert (H : forall a b, py_eq a b = true -> py_eq b a = true).
  { intros a b Hab. apply py_eq_cases in Hab. apply py_eq_cases.
    destruct Hab as [(s & -> & ->) | [(-> & ->) | [(i & -> & ->) | (x & y & Hx & Hy & Hxy)]]];
      eauto 8.
    right; right; right. exists y, x. rewrite number_eqb_sym. auto. }
  destruct (py_eq v w) eqn:E1, (py_eq w v) eqn:E2; try reflexivity.
  - apply H in E1. congruence.
  - apply H in E2. congruence.
Qed.

Lemma py_eq_trans u v w : py_eq u v = true -> py_eq v w = true -> py_eq u w = true.
Proof.
  intros H1 H2. apply py_eq_cases in H1, H2. apply py_eq_cases.
  destruct H1 as [(s & -> & ->) | [(-> & ->) | [(i & -> & ->) | (x & y & Hx & Hy & Hxy)]]].
  - exact H2.
  - exact H2.
  - exact H2.
  - destruct H2 as [(s & -> & ->) | [(-> & ->) | [(i & -> & ->) | (y' & z & Hy' & Hz & Hyz)]]];
      try discriminate.
    right; right; right. rewrite Hy in Hy'. injection Hy' as <-.
    exists x, z. repeat split; try assumption.
    destruct x as [| sx | nx dx], y as [| sy | ny dy], z as [| sz | nz dz];
      simpl in *; try discriminate.
    + destruct sx, sy, sz; simpl in *; congruence.
    + apply number_of_den in Hx, Hy, Hz.
      apply Z.eqb_eq in Hxy, Hyz. apply Z.eqb_eq. nia.
Qed.

Lemma row_eq_sym r r' : row_eq r r' = row_eq r' r.
Proof.
  revert r'. induction r as [| v r IH]; intros [| v' r']; simpl; try reflexivity.
  now rewrite py_eq_sym, IH.
Qed.

Lemma row_eq_trans r1 r2 r3 :
  row_eq r1 r2 = true -> row_eq r2 r3 = true -> row_eq r1 r3 = true.
Proof.
  revert r2 r3. induction r1 as [| v r1 IH]; intros [| v2 r2] [| v3 r3]; simpl;
    try discriminate; try reflexivity.
  intros H1 H2. apply andb_true_iff in H1, H2. destruct H1, H2.
  apply andb_true_iff. split; [eapply py_eq_trans | eapply IH]; eassumption.
Qed.

(** ** Sets *)

Section PySetFacts.

Context {A : Type} (eqb : A -> A -> bool).
Hypothesis eqb_sym : forall x y, eqb x y = eqb y x.
Hypothesis eqb_trans : forall x y z, eqb x y = true -> eqb y z = true -> eqb x z = true.

Lemma mem_spec x s : mem eqb x s = true <-> exists y, In y s /\ eqb x y = true.
Proof. unfold mem. apply existsb_exists. Qed.

Lemma mem_false x s : mem eqb x s = false <-> forall y, In y s -> eqb x y = false.
Proof.
  split.
  - intros H y Hy. destruct (eqb x y) eqn:E; [|reflexivity].
    assert (mem eqb x s = true) by (apply mem_spec; eauto). congruence.
  - intros H. destruct (mem eqb x s) eqn:E; [|reflexivity].
    apply mem_spec in E. destruct E as (y & Hy & E). rewrite H in E by assumption. discriminate.
Qed.

Lemma mem_app x s t : mem eqb x (s ++ t) = mem eqb x s || mem eqb x t.
Proof. unfold mem. apply existsb_app. Qed.

Lemma mem_add x s y : mem eqb x (add eqb s y) = mem eqb x s || eqb x y.
Proof.
  unfold add. destruct (mem eqb y s) eqn:E.
  - destruct (eqb x y) eqn:Exy; [|now rewrite orb_false_r].
    rewrite orb_true_r. apply mem_spec in E. destruct E as (z & Hz & Eyz).
    apply mem_spec. exists z. split; [assumption|]. eapply eqb_trans; eassumption.
  - rewrite mem_app. simpl. now rewrite orb_false_r.
Qed.

Lemma mem_fold x l acc :
  mem eqb x (fold_left (add eqb) l acc) = mem eqb x acc || mem eqb x l.
Proof.
  revert acc. induction l as [| y l IH]; intros acc; simpl.
  - now rewrite orb_false_r.
  - rewrite IH, mem_add. now rewrite orb_assoc.
Qed.

(** [x in set(l)] exactly when [x in l]. *)
Lemma mem_set_of x l : mem eqb x (set_of eqb l) = mem eqb x l.
Proof. unfold set_of. now rewrite mem_fold. Qed.

Lemma In_add x s y : In x (add eqb s y) -> In x s \/ x = y.
Proof.
  unfold add. destruct (mem eqb y s); [auto|].
  intros H. apply in_app_or in H. destruct H as [H | [H | []]]; auto.
Qed.

Lemma In_fold x l acc :
  In x (fold_left (add eqb) l acc) -> In x acc \/ In x l.
Proof.
  revert acc. induction l as [| y l IH]; intros acc; simpl; [auto|].
  intros H. apply IH in H. destruct H as [H | H]; [|auto].
  apply In_add in H. destruct H; auto.
Qed.

(** The items of [set(l)] are items of [l]. *)
Lemma In_set_of x l : In x (set_of eqb l) -> In x l.
Proof. intros H. apply In_fold in H. destruct H as [[] | H]; exact H. Qed.

Lemma In_fold_acc x l acc : In x acc -> In x (fold_left (add eqb) l acc).
Proof.
  revert acc. induction l as [| y l IH]; intros acc H; simpl; [exact H|].
  apply IH. unfold add. destruct (mem eqb y acc); [exact H|]. apply in_or_app. auto.
Qed.

Lemma In_fold_list x l acc :
  In x l ->
  In x (fold_left (add eqb) l acc) \/ mem eqb x (fold_left (add eqb) l acc) = true.
Proof.
  revert acc. induction l as [| y l IH]; intros acc; simpl; [intros []|].
  intros [-> | H]; [|apply IH; exact H].
  destruct (mem eqb x acc) eqn:E.
  - right. rewrite mem_fold, mem_add, E. reflexivity.
  - left. apply In_fold_acc. unfold add. rewrite E.
    apply in_or_app. right. left. reflexivity.
Qed.

(** An item of [l] is kept in [set(l)] unless an equal one is. *)
Lemma In_or_mem_set_of x l :
  In x l -> In x (set_of eqb l) \/ mem eqb x (set_of eqb l) = true.
Proof. apply In_fold_list. Qed.

Lemma distinct_app s t :
  distinct eqb (s ++ t) = true <->
  distinct eqb s = true /\ distinct eqb t = true /\
  forall x y, In x s -> In y t -> eqb x y = false.
Proof.
  induction s as [| a s IH]; simpl.
  - split; [intros H; repeat split; [exact H | intros ? ? []] | intros (_ & H & _); exact H].
  - rewrite !andb_true_iff, !negb_true_iff, mem_app, orb_false_iff, IH, !mem_false.
    split.
    + intros ((H1 & H2) & H3 & H4 & H5). repeat split; try assumption.
      intros x y [<- | Hx] Hy; [apply H2 | apply H5]; assumption.
    + intros ((H1 & H2) & H3 & H4). repeat split; try assumption.
      * intros y Hy. apply H4; [left; reflexivity | assumption].
      * intros x y Hx Hy. apply H4; [right|]; assumption.
Qed.

Lemma distinct_add s y : distinct eqb s = true -> distinct eqb (add eqb s y) = true.
Proof.
  intros Hs. unfold add. destruct (mem eqb y s) eqn:E; [exact Hs|].
  apply distinct_app. repeat split; [exact Hs|].
  intros x z Hx [<- | []]. rewrite eqb_sym. rewrite mem_false in E. apply E. exact Hx.
Qed.

Lemma distinct_fold l acc :
  distinct eqb acc = true -> distinct eqb (fold_left (add eqb) l acc) = true.
Proof.
  revert acc. induction l as [| y l IH]; intros acc H; simpl; [exact H|].
  apply IH, distinct_add, H.
Qed.

(** [set(l)] has no repetition. *)
Lemma distinct_set_of l : distinct eqb (set_of eqb l) = true.
Proof. apply distinct_fold. reflexivity. Qed.

Lemma fold_distinct l acc :
  distinct eqb (acc ++ l) = true -> fold_left (add eqb) l acc = acc ++ l.
Proof.
  revert acc. induction l as [| y l IH]; intros acc H; simpl.
  - now rewrite app_nil_r.
  - assert (E : mem eqb y acc = false).
    { apply mem_false. intros z Hz. rewrite eqb_sym.
      apply distinct_app in H. destruct H as (_ & _ & H). apply H; [exact Hz | left; reflexivity]. }
    unfold add. rewrite E. rewrite IH; rewrite <- app_assoc; [reflexivity | exact H].
Qed.

(** A list without repetition is its own set. *)
Lemma set_of_distinct l : distinct eqb l = true -> set_of eqb l = l.
Proof. intros H. unfold set_of. now rewrite fold_distinct. Qed.

(** A set whose items all have an equal in [t] is no longer than [t]. *)
Lemma distinct_length_le s :
  forall t, distinct eqb s = true -> (forall x, In x s -> mem eqb x t = true) ->
  (List.length s <= List.length t)%nat.
Proof.
  induction s as [| x s IH]; intros t Hd Hin; simpl; [lia|].
  simpl in Hd. apply andb_true_iff in Hd. destruct Hd as [Hx Hd].
  apply negb_true_iff in Hx. rewrite mem_false in Hx.
  destruct (proj1 (mem_spec x t) (Hin x (or_introl eq_refl))) as (y & Hy & Exy).
  apply in_split in Hy. destruct Hy as (t1 & t2 & ->).
  assert (Hle : (List.length s <= List.length (t1 ++ t2))%nat).
  { apply IH; [exact Hd|]. intros z Hz.
    destruct (proj1 (mem_spec z _) (Hin z (or_intror Hz))) as (w & Hw & Ezw).
    apply mem_spec. apply in_app_or in Hw. destruct Hw as [Hw | [<- | Hw]].
    - exists w. split; [apply in_or_app; auto | exact Ezw].
    - exfalso. specialize (Hx z Hz).
      assert (eqb x z = true) by (eapply eqb_trans; [exact Exy | rewrite eqb_sym; exact Ezw]).
      congruence.
    - exists w. split; [apply in_or_app; auto | exact Ezw]. }
  rewrite length_app in *. simpl. lia.
Qed.

(** [s.issubset(t)] on sets: every item of [s] has an equal in [t]. *)
Lemma issubset_spec s t :
  distinct eqb s = true ->
  (issubset eqb s t = true <-> forall x, In x s -> mem eqb x t = true).
Proof.
  intros Hd. unfold issubset. rewrite andb_true_iff, forallb_forall. split.
  - intros [_ H]. exact H.
  - intros H. split; [|exact H]. unfold len. apply Z.leb_le.
    apply Nat2Z.inj_le. apply distinct_length_le; assumption.
Qed.

(** [s == t] on sets: the same items up to equality. *)
Lemma set_eq_spec s t :
  distinct eqb s = true -> distinct eqb t = true ->
  (set_eq eqb s t = true <->
   (forall x, In x s -> mem eqb x t = true) /\ (forall x, In x t -> mem eqb x s = true)).
Proof.
  intros Hs Ht. unfold set_eq. rewrite andb_true_iff, forallb_forall. split.
  - intros [Hlen H]. split; [exact H|].
    (* equal sizes: the inclusion is onto *)
    apply Z.eqb_eq in Hlen. unfold len in Hlen. apply Nat2Z.inj in Hlen.
    intros y Hy. destruct (mem eqb y s) eqn:E; [reflexivity|]. exfalso.
    rewrite mem_false in E.
    apply in_split in Hy. destruct Hy as (t1 & t2 & ->).
    assert (Hle : (List.length s <= List.length (t1 ++ t2))%nat).
    { apply distinct_length_le; [exact Hs|]. intros x Hx.
      destruct (proj1 (mem_spec x _) (H x Hx)) as (w & Hw & Exw).
      apply mem_spec. apply in_app_or in Hw. destruct Hw as [Hw | [<- | Hw]].
      - exists w. split; [apply in_or_app; auto | exact Exw].
      - specialize (E x Hx). rewrite eqb_sym in E. congruence.
      - exists w. split; [apply in_or_app; auto | exact Exw]. }
    rewrite length_app in *. simpl in *. lia.
  - intros [H1 H2]. split; [|exact H1]. unfold len. apply Z.eqb_eq. f_equal.
    apply Nat.le_antisymm; apply distinct_length_le; assumption.
Qed.

End PySetFacts.

Import PyFloat PyFloatFacts.

(** ** The error monad on lists *)

Lemma mapM_Forall2 {A B} (f : A -> result B) l l' :
  mapM f l = Ok l' <-> Forall2 (fun a b => f a = Ok b) l l'.
Proof.
  revert l'. induction l as [| a l IH]; intros l'; simpl.
  - split; [intros [= <-]; constructor | intros H; inversion H; reflexivity].
  - split.
    + destruct (f a) as [b|] eqn:Ea; simpl; [|discriminate].
      destruct (mapM f l) as [bs|] eqn:El; simpl; [|discriminate].
      intros [= <-]. constructor; [exact Ea | apply IH; reflexivity].
    + intros H. inversion H as [| ? b ? bs Hab Hl]; subst.
      rewrite Hab. simpl. apply IH in Hl. rewrite Hl. reflexivity.
Qed.

Lemma mapM_total {A B} (f : A -> result B) (P : A -> Prop) l :
  (forall a, P a -> exists b, f a = Ok b) -> Forall P l -> exists l', mapM f l = Ok l'.
Proof.
  intros Hf. induction 1 as [| a l Ha _ IH]; simpl; [eauto|].
  destruct (Hf a Ha) as [b ->]. destruct IH as [bs ->]. simpl. eauto.
Qed.

Lemma mapM_fixed {A} (f : A -> result A) l :
  Forall (fun a => f a = Ok a) l -> mapM f l = Ok l.
Proof. induction 1 as [| a l Ha _ IH]; simpl; [reflexivity|]. now rewrite Ha, IH. Qed.

(** ** The value normalizer *)


Lemma of_int_total n :
  Z.abs n < 2 ^ 1023 -> exists f, of_int n = Ok f /\ valid f.
Proof.
  intros Hn. unfold of_int.
  pose proof (of_rational_valid (n <? 0) (Z.abs n) 1 ltac:(lia) ltac:(lia)) as Hv.
  pose proof (nearest_mag_bound (Z.abs n) 1 ltac:(lia) ltac:(lia)) as Hb.
  unfold of_rational in *.
  destruct (Z.ltb_spec (nearest_mag (Z.abs n) 1) overflow_threshold) as [Hlt | Hge].
  - eexists. split; [reflexivity | exact Hv].
  - exfalso. unfold overflow_threshold, unit_scale in *.
    change (2 ^ 2098) with (2 ^ 1023 * (2 * 2 ^ 1074)) in Hge.
    set (T := 2 ^ 1074) in *. assert (0 < T) by reflexivity.
    set (B := 2 ^ 1023) in *. set (Y := nearest_mag _ _) in *. nia.
Qed.

Lemma of_int_valid n f : of_int n = Ok f -> valid f.
Proof.
  unfold of_int.
  pose proof (of_rational_valid (n <? 0) (Z.abs n) 1 ltac:(lia) ltac:(lia)) as Hv.
  destruct (of_rational _ _ _); [intros [= <-] | discriminate | intros [= <-]]; exact Hv.
Qed.

Lemma float_of_decimal_valid d f : float_of_decimal d = Ok f -> valid f.
Proof.
  destruct d as [| | s | s c e]; simpl; try discriminate; try (intros [= <-]; exact I).
  destruct (Z.leb_spec 0 e); intros [= <-]; apply of_rational_valid; try lia.
  all: try (apply Z.mul_nonneg_nonneg; [lia | apply Z.pow_nonneg; lia]).
  all: try (apply Z.pow_pos_nonneg; lia).
Qed.

Lemma float_of_decimal_total d : d <> DsNaN -> exists f, float_of_decimal d = Ok f.
Proof.
  destruct d as [| | s | s c e]; simpl; intros H; try (eexists; reflexivity); [congruence|].
  destruct (0 <=? e); eexists; reflexivity.
Qed.

Lemma rounded_total f : valid f -> exists r, rounded f = Ok (VFloat r) /\ valid r.
Proof.
  intros Hf. destruct (round_total f 5 Hf ltac:(lia)) as (r & Hr & Hv).
  exists r. unfold rounded. rewrite Hr. split; [reflexivity | exact Hv].
Qed.

Lemma rounded_fixed f y :
  valid f -> rounded f = Ok y -> normalize_value y = Ok y.
Proof.
  intros Hf. unfold rounded. destruct (round f 5) as [r|] eqn:Hr; simpl; [|discriminate].
  intros [= <-]. rewrite normalize_value_equation_4.
  rewrite (round5_fixed f r Hf Hr). reflexivity.
Qed.

Lemma normalize_int_fixed n y :
  normalize_value (VInt n) = Ok y -> normalize_value y = Ok y.
Proof.
  rewrite normalize_value_equation_3.
  destruct (of_int n) as [f|] eqn:Hf; simpl; [|discriminate].
  apply rounded_fixed. eapply of_int_valid; eassumption.
Qed.

(** A value that [normalize_value] returns is returned unchanged when
    normalized again. *)
Lemma normalize_value_fixed x y :
  wf_value x -> normalize_value x = Ok y -> normalize_value y = Ok y.
Proof.
  intros Hx. destruct x as [s | b | n | f | d | | i].
  - rewrite normalize_value_equation_1. cbv zeta.
    destruct (in_strs _ ["true"; "yes"; "1"]%string) eqn:E1; [apply normalize_int_fixed|].
    destruct (in_strs _ ["false"; "no"; "0"]%string) eqn:E2; [apply normalize_int_fixed|].
    intros [= <-]. rewrite normalize_value_equation_1. cbv zeta.
    rewrite PyStrFacts.strip_lower_fixed, E1, E2. reflexivity.
  - rewrite normalize_value_equation_2. apply normalize_int_fixed.
  - apply normalize_int_fixed.
  - rewrite normalize_value_equation_4. apply rounded_fixed. exact Hx.
  - rewrite normalize_value_equation_5.
    destruct (float_of_decimal d) as [f|] eqn:Hf; simpl; [|discriminate].
    apply rounded_fixed. eapply float_of_decimal_valid; eassumption.
  - rewrite normalize_value_equation_6. intros [= <-]. apply normalize_value_equation_6.
  - rewrite normalize_value_equation_7. intros [= <-]. apply normalize_value_equation_7.
Qed.

Lemma normalize_int_total n :
  Z.abs n < 2 ^ 1023 -> exists y, normalize_value (VInt n) = Ok y.
Proof.
  intros Hn. rewrite normalize_value_equation_3.
  destruct (of_int_total n Hn) as (f & -> & Hf). simpl.
  destruct (rounded_total f Hf) as (r & Hr & _). unfold rounded in Hr. eauto.
Qed.

(** On the cells of a database the normalizer raises nothing. *)
Lemma normalize_value_total x : db_value x -> exists y, normalize_value x = Ok y.
Proof.
  intros Hx. destruct x as [s | b | n | f | d | | i].
  - rewrite normalize_value_equation_1. cbv zeta.
    destruct (in_strs _ _); [apply normalize_int_total; reflexivity|].
    destruct (in_strs _ _); [apply normalize_int_total; reflexivity|]. eauto.
  - rewrite normalize_value_equation_2. apply normalize_int_total. destruct b; reflexivity.
  - apply normalize_int_total. exact Hx.
  - rewrite normalize_value_equation_4.
    destruct (rounded_total f Hx) as (r & Hr & _). unfold rounded in Hr. eauto.
  - rewrite normalize_value_equation_5.
    destruct (float_of_decimal_total d Hx) as (f & Hf). rewrite Hf. simpl.
    destruct (rounded_total f (float_of_decimal_valid d f Hf)) as (r & Hr & _).
    unfold rounded in Hr. eauto.
  - rewrite normalize_value_equation_6. eauto.
  - rewrite normalize_value_equation_7. eauto.
Qed.

Lemma round_half_even_nearest a b j :
  0 < b -> Z.abs (round_half_even a b * b - a) <= Z.abs (j * b - a).
Proof.
  intros Hb. pose proof (round_half_even_spec a b Hb).
  set (k := round_half_even a b) in *.
  destruct (Z.eq_dec j k) as [-> | Hj]; [lia|]. nia.
Qed.

Lemma in_strs_spec s l : in_strs s l = true <-> In s l.
Proof.
  unfold in_strs. rewrite existsb_exists. split.
  - intros (t & Ht & E). apply String.eqb_eq in E. now subst.
  - intros H. exists s. split; [exact H | apply String.eqb_refl].
Qed.

Lemma in_strs_false s l : ~ In s l -> in_strs s l = false.
Proof.
  intros H. destruct (in_strs s l) eqn:E; [|reflexivity].
  apply in_strs_spec in E. contradiction.
Qed.

Lemma normalize_one : normalize_value (VInt 1) = Ok (VFloat (literal 10 (-1))).
Proof. vm_compute. reflexivity. Qed.

Lemma normalize_zero : normalize_value (VInt 0) = Ok (VFloat (literal 0 0)).
Proof. vm_compute. reflexivity. Qed.

(** C4. Boolean tokens. Text is trimmed and lower-cased
    ([v.strip().lower()]); when the result is one of "true", "yes", "1"
    the value is normalized as the integer 1, hence the float 1.0; when
    it is one of "false", "no", "0", as the integer 0, hence 0.0;
    otherwise the trimmed, lower-cased text is returned. A boolean is
    normalized as its integer. So "TRUE", "Yes", 1 and True all
    normalize to the float 1.0, which equals itself. *)
Theorem normalize_value_boolean_tokens :
  (forall s : string,
     let v_lower := PyStr.lower (PyStr.strip s) in
     (In v_lower ["true"; "yes"; "1"]%string ->
      normalize_value (VStr s) = Ok (VFloat (literal 10 (-1)))) /\
     (In v_lower ["false"; "no"; "0"]%string ->
      normalize_value (VStr s) = Ok (VFloat (literal 0 0))) /\
     (~ In v_lower ["true"; "yes"; "1"; "false"; "no"; "0"]%string ->
      normalize_value (VStr s) = Ok (VStr v_lower))) /\
  (forall b : bool, normalize_value (VBool b) = normalize_value (VInt (Z.b2z b))) /\
  normalize_value (VStr "TRUE") = Ok (VFloat (literal 10 (-1))) /\
  normalize_value (VStr "Yes") = Ok (VFloat (literal 10 (-1))) /\
  normalize_value (VInt 1) = Ok (VFloat (literal 10 (-1))) /\
  normalize_value (VBool true) = Ok (VFloat (literal 10 (-1))) /\
  py_eq (VFloat (literal 10 (-1))) (VFloat (literal 10 (-1))) = true.
Proof.
  conj_split.
  - intros s v_lower. rewrite normalize_value_equation_1. cbv zeta. fold v_lower.
    split; [|split].
    + intros H. apply in_strs_spec in H. rewrite H. exact normalize_one.
    + intros H.
      assert (Hn : ~ In v_lower ["true"; "yes"; "1"]%string).
      { simpl in *. intros [E | [E | [E | []]]]; rewrite <- E in H;
          destruct H as [H | [H | [H | []]]]; discriminate. }
      rewrite (in_strs_false _ _ Hn). apply in_strs_spec in H. rewrite H. exact normalize_zero.
    + intros H. rewrite !in_strs_false; [reflexivity | |]; simpl in *; tauto.
  - intros b. apply normalize_value_equation_2.
  - vm_compute. reflexivity.
  - vm_compute. reflexivity.
  - exact normalize_one.
  - vm_compute. reflexivity.
  - vm_compute. reflexivity.
Qed.

Lemma normalize_value_boolean_tokens_witness :
  normalize_value (VStr " No ") = Ok (VFloat (literal 0 0)).
Proof.
  apply (proj1 (proj2 (proj1 normalize_value_boolean_tokens " No "%string))).
  simpl. right. left. reflexivity.
Defined.

(** C5. Numbers. An int, a float and a Decimal are normalized to
    [round(float(v), 5)], and on the cells of a database this raises
    nothing. For a finite double [m] the result [y] is a double, it is
    a double nearest to the decimal [k / 10^5], and [k] is an integer
    nearest to [m * 10^5] (magnitudes in units of 2^-1074). So
    1.000001 and 1.0 normalize to the same float 1.0, and 1.00001 to
    a float that is not equal to it. *)
Theorem normalize_value_numeric :
  (forall n, normalize_value (VInt n) =
             f <- of_int n ;; r <- round f 5 ;; Ok (VFloat r)) /\
  (forall x, normalize_value (VFloat x) = r <- round x 5 ;; Ok (VFloat r)) /\
  (forall d, normalize_value (VDecimal d) =
             f <- float_of_decimal d ;; r <- round f 5 ;; Ok (VFloat r)) /\
  (forall v, db_value v ->
     (exists n, v = VInt n) \/ (exists x, v = VFloat x) \/ (exists d, v = VDecimal d) ->
     exists r, normalize_value v = Ok (VFloat r) /\ valid r) /\
  (forall s m, representable m ->
     let k := round_half_even (m * 10 ^ 5) unit_scale in
     exists y, round (Fin s m) 5 = Ok (Fin s y) /\ representable y /\
       (forall j, Z.abs (k * unit_scale - m * 10 ^ 5)
                  <= Z.abs (j * unit_scale - m * 10 ^ 5)) /\
       (forall D, representable D ->
                  Z.abs (y * 10 ^ 5 - k * unit_scale)
                  <= Z.abs (D * 10 ^ 5 - k * unit_scale))) /\
  normalize_value (VFloat (literal 1000001 (-6))) = Ok (VFloat (literal 10 (-1))) /\
  normalize_value (VFloat (literal 10 (-1))) = Ok (VFloat (literal 10 (-1))) /\
  (exists y, normalize_value (VFloat (literal 100001 (-5))) = Ok y /\
             py_eq y (VFloat (literal 10 (-1))) = false).
Proof.
  conj_split.
  - apply normalize_value_equation_3.
  - apply normalize_value_equation_4.
  - apply normalize_value_equation_5.
  - intros v Hv [(n & ->) | [(x & ->) | (d & ->)]].
    + rewrite normalize_value_equation_3.
      destruct (of_int_total n Hv) as (f & -> & Hf). apply rounded_total, Hf.
    + rewrite normalize_value_equation_4. apply rounded_total, Hv.
    + rewrite normalize_value_equation_5.
      destruct (float_of_decimal_total d Hv) as (f & Hf). rewrite Hf.
      apply rounded_total. eapply float_of_decimal_valid, Hf.
  - intros s m Hm k.
    assert (Hc : 0 < 10 ^ 5) by reflexivity.
    pose proof (round_in_range m (10 ^ 5) Hm Hc) as Hr. fold k in Hr.
    assert (Hk0 : 0 <= k).
    { apply round_half_even_nonneg; [|apply unit_scale_pos]. destruct Hm as [[? _] _]. lia. }
    exists (nearest_mag k (10 ^ 5)). split; [|split; [|split]].
    + unfold round, of_rational. cbv zeta. fold k.
      destruct (Z.ltb_spec (nearest_mag k (10 ^ 5)) overflow_threshold); [reflexivity | lia].
    + split; [split; [apply nearest_mag_nonneg; assumption | exact Hr]|].
      apply nearest_mag_on_grid; assumption.
    + intros j. apply round_half_even_nearest, unit_scale_pos.
    + intros D HD. apply nearest_mag_nearest; assumption.
  - vm_compute. reflexivity.
  - vm_compute. reflexivity.
  - eexists. split; vm_compute; reflexivity.
Qed.

Lemma normalize_value_numeric_witness :
  representable 3 /\ exists y, round (Fin false 3) 5 = Ok (Fin false y).
Proof.
  assert (H : representable 3) by (split; [split; [lia | reflexivity] | reflexivity]).
  split; [exact H|].
  destruct (proj1 (proj2 (proj2 (proj2 (proj2 normalize_value_numeric)))) false 3 H)
    as (y & Hy & _).
  exists y. exact Hy.
Defined.

(** What [normalize_value] returns is text, a float, [None] or an
    opaque value. *)
Lemma normalize_value_form x y :
  normalize_value x = Ok y ->
  (exists s, y = VStr s) \/ (exists f, y = VFloat f) \/ y = VNone \/ (exists i, y = VOther i).
Proof.
  assert (Hint : forall n, normalize_value (VInt n) = Ok y -> exists f, y = VFloat f).
  { intros n. rewrite normalize_value_equation_3.
    destruct (of_int n); simpl; [|discriminate].
    destruct (round _ 5); simpl; [|discriminate]. intros [= <-]. eauto. }
  destruct x as [s | b | n | f | d | | i].
  - rewrite normalize_value_equation_1. cbv zeta.
    destruct (in_strs _ _); [intros H; apply Hint in H; auto|].
    destruct (in_strs _ _); [intros H; apply Hint in H; auto|].
    intros [= <-]. eauto.
  - rewrite normalize_value_equation_2. intros H; apply Hint in H; auto.
  - intros H; apply Hint in H; auto.
  - rewrite normalize_value_equation_4.
    destruct (round _ 5); simpl; [|discriminate]. intros [= <-]. eauto.
  - rewrite normalize_value_equation_5.
    destruct (float_of_decimal d); simpl; [|discriminate].
    destruct (round _ 5); simpl; [|discriminate]. intros [= <-]. eauto.
  - rewrite normalize_value_equation_6. intros [= <-]. auto.
  - rewrite normalize_value_equation_7. intros [= <-]. eauto 6.
Qed.

Lemma float_eq_refl f : f <> Nan -> py_eq (VFloat f) (VFloat f) = true.
Proof.
  intros Hf. destruct f as [| s | s m]; [congruence | |].
  - unfold py_eq. simpl. apply Bool.eqb_reflx.
  - unfold py_eq. cbn [number_of number_eqb]. apply Z.eqb_refl.
Qed.

Lemma normalize_row_fixed r r' :
  Forall wf_value r -> normalize r = Ok r' -> normalize r' = Ok r'.
Proof.
  intros Hwf H. apply mapM_Forall2 in H. apply mapM_fixed.
  induction H as [| v v' r r' Hv _ IH]; constructor.
  - inversion Hwf; subst. eapply normalize_value_fixed; eassumption.
  - apply IH. inversion Hwf; assumption.
Qed.

(** On the rows of a database [normalize_results] raises nothing. *)
Lemma normalize_results_total results :
  db_rows results -> exists s, normalize_results results = Ok s.
Proof.
  intros Hdb. unfold normalize_results.
  destruct (mapM_total normalize (Forall db_value) results) as [rows Hrows]; [|exact Hdb|].
  - intros r Hr. apply (mapM_total normalize_value db_value); [|exact Hr].
    apply normalize_value_total.
  - rewrite Hrows. simpl. eauto.
Qed.

(** C6 as it is stated fails on a NaN cell: its normal form is a NaN,
    normalizing that again gives a NaN, and a NaN is not [==] to
    itself. *)
Lemma normalize_value_nan_not_equal :
  exists y z,
    normalize_value (VFloat Nan) = Ok y /\ normalize_value y = Ok z /\
    py_eq z y = false.
Proof. exists (VFloat Nan), (VFloat Nan). repeat split. Qed.

(** C6, amended. Every value that [normalize_value] returns is
    returned unchanged when it is normalized again, and it is [==] to
    itself unless it is a NaN; normalizing the result set that
    [normalize_results] returns gives back the same rows. *)
Theorem normalize_value_idempotent :
  (forall x y, wf_value x -> normalize_value x = Ok y ->
     normalize_value y = Ok y /\ (y <> VFloat Nan -> py_eq y y = true)) /\
  (forall results s, Forall (Forall wf_value) results ->
     normalize_results results = Ok s -> normalize_results s = Ok s).
Proof.
  split.
  - intros x y Hx Hy. split; [eapply normalize_value_fixed; eassumption|].
    intros Hnan.
    destruct (normalize_value_form x y Hy) as [(s & ->) | [(f & ->) | [-> | (i & ->)]]].
    + simpl. apply String.eqb_refl.
    + apply float_eq_refl. congruence.
    + reflexivity.
    + simpl. apply N.eqb_refl.
  - intros results s Hwf. unfold normalize_results.
    destruct (mapM normalize results) as [rows|] eqn:Hrows; simpl; [|discriminate].
    intros [= <-].
    assert (Hfix : mapM normalize (set_of row_eq rows) = Ok (set_of row_eq rows)).
    { apply mapM_fixed. apply Forall_forall. intros r' Hr'.
      apply In_set_of in Hr'. apply mapM_Forall2 in Hrows.
      clear - Hrows Hr' Hwf. induction Hrows as [| r q rs qs Hrq _ IH]; [destruct Hr'|].
      inversion Hwf; subst. destruct Hr' as [<- | Hr'].
      - eapply normalize_row_fixed; eassumption.
      - apply IH; assumption. }
    rewrite Hfix. simpl. f_equal.
    apply set_of_distinct; [apply row_eq_sym|].
    apply distinct_set_of, row_eq_sym.
Qed.

Lemma normalize_value_idempotent_witness :
  normalize_value (VStr " Alice ") = Ok (VStr "alice") /\
  normalize_value (VStr "alice") = Ok (VStr "alice").
Proof.
  assert (H : normalize_value (VStr " Alice ") = Ok (VStr "alice")) by (vm_compute; reflexivity).
  split; [exact H|].
  exact (proj1 (proj1 normalize_value_idempotent (VStr " Alice ") (VStr "alice") I H)).
Defined.

(** C7. Result sets. [normalize] normalizes a row cell by cell, so the
    result has the same number of columns in the same positions.
    [normalize_results] returns rows that are pairwise different as
    tuples, each of them the normal form of an input row, and the
    normal form of every input row is among them or equal to one of
    them; on the rows of a database it raises nothing. The rows
    (1, "A") and (1, "a") give a set of one row. *)
Theorem normalize_results_dedup :
  (forall r r', normalize r = Ok r' <->
                Forall2 (fun v v' => normalize_value v = Ok v') r r') /\
  (forall results s, normalize_results results = Ok s ->
     distinct row_eq s = true /\
     (forall r', In r' s -> exists r, In r results /\ normalize r = Ok r') /\
     (forall r, In r results ->
        exists r', normalize r = Ok r' /\ (In r' s \/ mem row_eq r' s = true))) /\
  (forall results, db_rows results -> exists s, normalize_results results = Ok s) /\
  normalize_results [[VInt 1; VStr "A"]; [VInt 1; VStr "a"]]
  = Ok [[VFloat (literal 10 (-1)); VStr "a"]].
Proof.
  split; [|split; [|split]].
  - intros r r'. apply mapM_Forall2.
  - intros results s. unfold normalize_results.
    destruct (mapM normalize results) as [rows|] eqn:Hrows; simpl; [|discriminate].
    intros [= <-]. apply mapM_Forall2 in Hrows. split; [|split].
    + apply distinct_set_of. apply row_eq_sym.
    + intros r' Hr'. apply In_set_of in Hr'.
      clear - Hrows Hr'. induction Hrows as [| r q rs qs Hrq _ IH]; [destruct Hr'|].
      destruct Hr' as [<- | Hr'].
      * exists r. split; [left; reflexivity | exact Hrq].
      * destruct (IH Hr') as (r0 & H0 & H1). exists r0. split; [right|]; assumption.
    + intros r Hr.
      assert (H : exists r', normalize r = Ok r' /\ In r' rows).
      { clear - Hrows Hr. induction Hrows as [| r0 q rs qs Hrq _ IH]; [destruct Hr|].
        destruct Hr as [<- | Hr].
        - exists q. split; [exact Hrq | left; reflexivity].
        - destruct (IH Hr) as (r' & H0 & H1). exists r'. split; [|right]; assumption. }
      destruct H as (r' & H0 & H1). exists r'. split; [exact H0|].
      apply In_or_mem_set_of; [apply row_eq_trans | exact H1].
  - apply normalize_results_total.
  - vm_compute. reflexivity.
Qed.

Lemma normalize_results_dedup_witness :
  db_rows [[VInt 1; VStr "A"]] /\ exists s, normalize_results [[VInt 1; VStr "A"]] = Ok s.
Proof.
  assert (H : db_rows [[VInt 1; VStr "A"]]).
  { repeat constructor. }
  split; [exact H|].
  exact (proj1 (proj2 (proj2 normalize_results_dedup)) _ H).
Defined.

(** ** The comparator: properties *)

(** The test [set(r).issubset(set(r'))] is inclusion of value sets. *)
Lemma value_set_issubset r r' :
  issubset py_eq (value_set r) (value_set r') = true <-> values_subset r r'.
Proof.
  unfold value_set.
  rewrite (issubset_spec py_eq py_eq_sym py_eq_trans)
    by (apply distinct_set_of, py_eq_sym).
  split.
  - intros H v Hv.
    assert (Hm : mem py_eq v (set_of py_eq r') = true).
    { destruct (In_or_mem_set_of py_eq py_eq_trans v r Hv) as [Hin | Hmem].
      - apply H, Hin.
      - apply mem_spec in Hmem. destruct Hmem as (u & Hu & Evu).
        specialize (H u Hu). apply mem_spec in H. destruct H as (w & Hw & Euw).
        apply mem_spec. exists w. split; [exact Hw | eapply py_eq_trans; eassumption]. }
    rewrite (mem_set_of py_eq py_eq_trans) in Hm. apply mem_spec in Hm. exact Hm.
  - intros H v Hv. apply In_set_of in Hv.
    rewrite (mem_set_of py_eq py_eq_trans). apply mem_spec. apply H, Hv.
Qed.

Lemma row_matches_spec res_a row_p :
  row_matches res_a row_p = true <-> has_match res_a row_p.
Proof.
  unfold row_matches, has_match. rewrite orb_true_iff, !existsb_exists. split.
  - intros [(a & Ha & H) | (a & Ha & H)]; apply value_set_issubset in H; eauto.
  - intros (a & Ha & [H | H]); apply value_set_issubset in H; eauto.
Qed.

Lemma similar_loop_eq res_a rest : forall count,
  similar_loop res_a count rest
  = forallb (row_matches res_a) rest && (count + len rest =? len res_a).
Proof.
  induction rest as [| p rest IH]; intros count; simpl.
  - unfold len. simpl. now rewrite Z.add_0_r.
  - destruct (row_matches res_a p); simpl; [|reflexivity].
    rewrite IH. f_equal. f_equal. unfold len. simpl List.length. lia.
Qed.

Lemma filter_all {A} (f : A -> bool) l : forallb f l = true -> filter f l = l.
Proof.
  induction l as [| a l IH]; simpl; [reflexivity|].
  intros H. apply andb_true_iff in H. destruct H as [-> H]. now rewrite IH.
Qed.

(** C1. The fallback of the comparator. When the two normalized sets
    are not equal: if some predicted row has no actual row whose value
    set includes, or is included in, its own, the verdict is false;
    when every predicted row has one, all of them are counted, and the
    verdict is true exactly when that count equals the size of
    [actual]. So {(1,)} against {(1,2)} is true, and two actual rows
    against three predicted rows that all have a match is false. *)
Theorem is_similar_fallback_rule :
  (forall res_a res_p, set_eq row_eq res_a res_p = false ->
     ((exists row_p, In row_p res_p /\ ~ has_match res_a row_p) ->
      similar_sets res_a res_p = false) /\
     ((forall row_p, In row_p res_p -> has_match res_a row_p) ->
      matched_count res_a res_p = len res_p /\
      similar_sets res_a res_p = (matched_count res_a res_p =? len res_a))) /\
  is_similar (data_only [[VInt 1]]) (data_only [[VInt 1; VInt 2]]) = Ok true /\
  (let actual := [[VInt 1; VInt 2]; [VInt 3; VInt 4]] in
   let predicted := [[VInt 1]; [VInt 2]; [VInt 3]] in
   normalize_results actual
   = Ok [[VFloat (literal 1 0); VFloat (literal 2 0)];
         [VFloat (literal 3 0); VFloat (literal 4 0)]] /\
   let res_p := [[VFloat (literal 1 0)]; [VFloat (literal 2 0)]; [VFloat (literal 3 0)]] in
   normalize_results predicted = Ok res_p /\
   forallb (row_matches
              [[VFloat (literal 1 0); VFloat (literal 2 0)];
               [VFloat (literal 3 0); VFloat (literal 4 0)]]) res_p = true /\
   is_similar (data_only actual) (data_only predicted) = Ok false).
Proof.
  split; [|split; [|split; [|split; [|split]]]].
  - intros res_a res_p Hne. unfold similar_sets. rewrite Hne, similar_loop_eq. split.
    + intros (p & Hp & Hno).
      assert (E : forallb (row_matches res_a) res_p = false).
      { destruct (forallb _ res_p) eqn:E; [|reflexivity].
        rewrite forallb_forall in E. specialize (E p Hp).
        apply row_matches_spec in E. contradiction. }
      rewrite E. reflexivity.
    + intros Hall.
      assert (E : forallb (row_matches res_a) res_p = true).
      { apply forallb_forall. intros p Hp. apply row_matches_spec, Hall, Hp. }
      unfold matched_count. rewrite (filter_all _ _ E), E. split; reflexivity.
  - vm_compute. reflexivity.
  - vm_compute. reflexivity.
  - vm_compute. reflexivity.
  - vm_compute. reflexivity.
  - vm_compute. reflexivity.
Qed.

Lemma is_similar_fallback_rule_witness :
  set_eq row_eq [[VStr "a"]] [[VStr "a"; VStr "b"]] = false /\
  similar_sets [[VStr "a"]] [[VStr "a"; VStr "b"]] = true.
Proof.
  assert (H : set_eq row_eq [[VStr "a"]] [[VStr "a"; VStr "b"]] = false) by reflexivity.
  split; [exact H|].
  destruct (proj1 is_similar_fallback_rule _ _ H) as [_ Hall].
  destruct Hall as [_ ->]; [|reflexivity].
  intros p [<- | []]. exists [VStr "a"]. split; [left; reflexivity|].
  left. intros v [<- | []]. exists (VStr "a"). split; [left; reflexivity | reflexivity].
Defined.

(** C3. The exact-match step. When [res_a == res_p] the verdict is
    true, whatever the fallback would say; two sets with the same
    rows up to tuple equality are equal in that sense. So (1, "Alice")
    against (1, "ALICE") is judged equivalent. *)
Theorem is_similar_exact_match :
  (forall res_a res_p, set_eq row_eq res_a res_p = true ->
     similar_sets res_a res_p = true) /\
  (forall res_a res_p,
     distinct row_eq res_a = true -> distinct row_eq res_p = true ->
     (forall r, In r res_a -> mem row_eq r res_p = true) ->
     (forall r, In r res_p -> mem row_eq r res_a = true) ->
     similar_sets res_a res_p = true) /\
  is_similar (data_only [[VInt 1; VStr "Alice"]]) (data_only [[VInt 1; VStr "ALICE"]])
  = Ok true.
Proof.
  split; [|split].
  - intros res_a res_p H. unfold similar_sets. now rewrite H.
  - intros res_a res_p Ha Hp H1 H2. unfold similar_sets.
    rewrite (proj2 (set_eq_spec row_eq row_eq_sym row_eq_trans res_a res_p Ha Hp));
      [reflexivity | split; assumption].
  - vm_compute. reflexivity.
Qed.

Lemma is_similar_exact_match_witness :
  set_eq row_eq [[VStr "a"]; [VNone]] [[VNone]; [VStr "a"]] = true /\
  similar_sets [[VStr "a"]; [VNone]] [[VNone]; [VStr "a"]] = true.
Proof.
  assert (H : set_eq row_eq [[VStr "a"]; [VNone]] [[VNone]; [VStr "a"]] = true) by reflexivity.
  split; [exact H|].
  exact (proj1 is_similar_exact_match _ _ H).
Defined.

(** C9. Empty sets. When one of the two normalized sets is empty, the
    verdict is true exactly when both are. *)
Theorem is_similar_empty_sets res_a res_p :
  res_a = [] \/ res_p = [] ->
  (similar_sets res_a res_p = true <-> res_a = [] /\ res_p = []).
Proof.
  intros H. destruct res_a as [| a res_a], res_p as [| p res_p].
  - split; [auto | reflexivity].
  - split; [|intros [_ E]; discriminate E].
    unfold similar_sets, set_eq, len. simpl List.length.
    destruct (Z.eqb_spec (Z.of_nat 0) (Z.of_nat (S (List.length res_p)))); [lia|].
    simpl. discriminate.
  - split; [|intros [E _]; discriminate E].
    unfold similar_sets, set_eq, len. simpl List.length.
    destruct (Z.eqb_spec (Z.of_nat (S (List.length res_a))) (Z.of_nat 0)); [lia|].
    simpl. unfold len. simpl List.length.
    destruct (Z.eqb_spec 0 (Z.of_nat (S (List.length res_a)))); [lia | discriminate].
  - destruct H; discriminate.
Qed.

Lemma is_similar_empty_sets_witness :
  similar_sets [] [[VNone]] = true <-> @nil row = [] /\ [[VNone]] = [].
Proof. exact (is_similar_empty_sets [] [[VNone]] (or_introl eq_refl)). Defined.

(** ** The accuracy loop: properties *)

Lemma true_div_total c t :
  0 <= c <= t -> 0 < t -> exists f, true_div c t = Ok f /\ valid f.
Proof.
  intros Hc Ht. unfold true_div.
  destruct (Z.eqb_spec t 0); [lia|].
  rewrite (Z.abs_eq c), (Z.abs_eq t) by lia.
  pose proof (of_rational_valid (xorb (c <? 0) (t <? 0)) c t ltac:(lia) Ht) as Hv.
  pose proof (nearest_mag_bound c t ltac:(lia) Ht) as Hb.
  unfold of_rational in *.
  destruct (Z.ltb_spec (nearest_mag c t) overflow_threshold) as [Hlt | Hge].
  - eexists. split; [reflexivity | exact Hv].
  - exfalso. unfold overflow_threshold, unit_scale in *.
    change (2 ^ 2098) with (2 ^ 1024 * 2 ^ 1074) in Hge.
    set (T := 2 ^ 1074) in *. assert (0 < T) by reflexivity.
    set (Y := nearest_mag c t) in *.
    assert (2 * t * Y <= t * (3 * T + 1)) by nia.
    assert (2 * Y <= 3 * T + 1) by nia.
    lia.
Qed.

Lemma accuracy_total c t :
  0 <= c <= t -> 0 < t -> exists f, accuracy {| correct := c; total := t |} = Ok f.
Proof.
  intros Hc Ht. unfold accuracy. simpl.
  destruct (true_div_total c t Hc Ht) as (q & -> & Hq). simpl.
  destruct (round_total q 3 Hq ltac:(lia)) as (r & Hr & _). eauto.
Qed.

Lemma nearest_mag_zero q : 0 < q -> nearest_mag 0 q = 0.
Proof.
  intros Hq. apply nearest_mag_exact; [exact Hq | lia | reflexivity | lia].
Qed.

Lemma accuracy_zero t :
  0 < t -> accuracy {| correct := 0; total := t |} = Ok (Fin false 0).
Proof.
  intros Ht. unfold accuracy, true_div. simpl correct. simpl total.
  destruct (Z.eqb_spec t 0); [lia|].
  destruct (Z.ltb_spec t 0); [lia|].
  change (0 <? 0) with false. change (Z.abs 0) with 0. simpl xorb.
  rewrite (Z.abs_eq t) by lia.
  unfold of_rational. rewrite nearest_mag_zero by exact Ht.
  change (0 <? overflow_threshold) with true. cbv iota. cbv beta.
  unfold bind, round, of_rational. cbv zeta.
  change (0 * 10 ^ 3) with 0.
  replace (round_half_even 0 unit_scale) with 0
    by (symmetry; apply (round_half_even_exact 0 unit_scale), unit_scale_pos).
  rewrite nearest_mag_zero by reflexivity. reflexivity.
Qed.

Lemma is_similar_total exec_a exec_p :
  db_result exec_a -> db_result exec_p ->
  has_data exec_a = true -> has_data exec_p = true ->
  exists b, is_similar exec_a exec_p = Ok b.
Proof.
  intros Ha Hp Da Dp.
  destruct exec_a as [ca da na | ea]; [|discriminate].
  destruct exec_p as [cp dp np | ep]; [|discriminate].
  unfold is_similar. simpl get_data. simpl bind at 1.
  destruct (normalize_results_total da Ha) as [sa ->].
  simpl bind.
  destruct (normalize_results_total dp Hp) as [sp ->].
  simpl. eauto.
Qed.

Section HarnessFacts.

Variable execute_sql_query : string -> exec_result.

Lemma step_error st p a :
  counters_ok st ->
  has_data (execute_sql_query (SQL a)) = false \/
  has_data (execute_sql_query (SQL p)) = false ->
  step execute_sql_query st (p, a)
  = Ok {| correct := correct st; total := total st + 1 |}.
Proof.
  intros Hst Herr. unfold step.
  assert (E : has_data (execute_sql_query (SQL p)) && has_data (execute_sql_query (SQL a)) = false).
  { destruct Herr as [-> | ->]; [apply andb_false_r | reflexivity]. }
  rewrite E. simpl bind at 1. cbv iota.
  destruct (accuracy_total (correct st) (total st + 1)) as [f Hf]; [unfold counters_ok in Hst; lia..|].
  rewrite Hf. reflexivity.
Qed.

Lemma step_result st p a st' :
  step execute_sql_query st (p, a) = Ok st' ->
  exists ok,
    (if has_data (execute_sql_query (SQL p)) && has_data (execute_sql_query (SQL a))
     then is_similar (execute_sql_query (SQL a)) (execute_sql_query (SQL p))
     else Ok false) = Ok ok /\
    st' = {| correct := if ok then correct st + 1 else correct st;
             total := total st + 1 |}.
Proof.
  unfold step.
  destruct (if has_data _ && has_data _ then _ else _) as [ok|]; simpl bind at 1; [|discriminate].
  destruct (accuracy _); simpl; [|discriminate].
  intros [= <-]. eauto.
Qed.

Lemma step_total st p a :
  counters_ok st ->
  db_result (execute_sql_query (SQL a)) -> db_result (execute_sql_query (SQL p)) ->
  exists st', step execute_sql_query st (p, a) = Ok st'.
Proof.
  intros Hst Ha Hp.
  destruct (has_data (execute_sql_query (SQL p)) && has_data (execute_sql_query (SQL a))) eqn:E.
  - apply andb_true_iff in E. destruct E as [Ep Ea].
    destruct (is_similar_total _ _ Ha Hp Ea Ep) as [b Hb].
    unfold step. rewrite Ep, Ea, Hb. simpl bind at 1.
    destruct (accuracy_total (if b then correct st + 1 else correct st) (total st + 1))
      as [f Hf]; [unfold counters_ok in Hst; destruct b; lia | unfold counters_ok in Hst; lia |].
    rewrite Hf. simpl. eauto.
  - rewrite step_error; [eauto | exact Hst |].
    apply andb_false_iff in E. tauto.
Qed.

(** C2. One pair. When one of the two executions has no [data], the
    pair adds one to [total], leaves [correct] as it is and raises
    nothing, and the loop goes on with the next pair. Whenever the
    pair is done, [total] has grown by one, and [correct] by one
    exactly when both executions have [data] and [is_similar] says
    true, by nothing otherwise. On the rows of a database the pair is
    always done. *)
Theorem step_accounting (st : counters) (p a : entry) :
  0 <= correct st <= total st ->
  let exec_a := execute_sql_query (SQL a) in
  let exec_p := execute_sql_query (SQL p) in
  (has_data exec_a = false \/ has_data exec_p = false ->
   let st1 := {| correct := correct st; total := total st + 1 |} in
   step execute_sql_query st (p, a) = Ok st1 /\
   forall rest, loop execute_sql_query st ((p, a) :: rest)
                = loop execute_sql_query st1 rest) /\
  (forall st', step execute_sql_query st (p, a) = Ok st' ->
     total st' = total st + 1 /\
     (correct st' = correct st + 1 <->
      has_data exec_a = true /\ has_data exec_p = true /\
      is_similar exec_a exec_p = Ok true) /\
     (correct st' <> correct st + 1 -> correct st' = correct st)) /\
  (db_result exec_a -> db_result exec_p ->
   exists st', step execute_sql_query st (p, a) = Ok st').
Proof.
  intros Hst exec_a exec_p. split; [|split].
  - intros Herr st1.
    pose proof (step_error st p a Hst Herr) as Hstep. fold st1 in Hstep.
    split; [exact Hstep|]. intros rest. cbn [loop]. rewrite Hstep. reflexivity.
  - intros st' Hstep. apply step_result in Hstep. destruct Hstep as (ok & Hok & ->).
    fold exec_a exec_p in Hok. simpl. split; [reflexivity|]. split; [split|].
    + intros Hc. destruct ok; [|lia].
      destruct (has_data exec_p) eqn:Ep, (has_data exec_a) eqn:Ea; simpl in Hok;
        try discriminate. auto.
    + intros (Ea & Ep & Hs). rewrite Ea, Ep, Hs in Hok. simpl in Hok.
      injection Hok as <-. reflexivity.
    + destruct ok; [intros []; reflexivity | reflexivity].
  - apply step_total. exact Hst.
Qed.

Hypothesis executor_db : forall q, db_result (execute_sql_query q).

Lemma loop_total pairs : forall st,
  counters_ok st ->
  exists st', loop execute_sql_query st pairs = Ok st' /\ counters_ok st' /\
              total st' = total st + len pairs.
Proof.
  induction pairs as [| [p a] pairs IH]; intros st Hst; cbn [loop].
  - exists st. unfold len. simpl. split; [reflexivity | split; [exact Hst | lia]].
  - destruct (step_total st p a Hst (executor_db _) (executor_db _)) as [st1 H1].
    rewrite H1. cbn [bind].
    pose proof (step_result _ _ _ _ H1) as (ok & _ & E1).
    assert (Hg : counters_ok st1).
    { subst st1. unfold counters_ok in *. simpl. destruct ok; lia. }
    destruct (IH st1 Hg) as (st' & H' & Hg' & Ht').
    exists st'. split; [exact H' | split; [exact Hg'|]].
    rewrite Ht'. subst st1. simpl. unfold len. simpl List.length. lia.
Qed.

End HarnessFacts.

Lemma step_accounting_witness :
  step (fun _ => ExecError "timeout") {| correct := 0; total := 0 |}
    ({| SQL := "p" |}, {| SQL := "a" |})
  = Ok {| correct := 0; total := 1 |}.
Proof.
  assert (H : 0 <= correct {| correct := 0; total := 0 |}
              <= total {| correct := 0; total := 0 |}) by (simpl; lia).
  exact (proj1 (proj1 (step_accounting (fun _ => ExecError "timeout")
                         {| correct := 0; total := 0 |} {| SQL := "p" |} {| SQL := "a" |} H)
                      (or_introl eq_refl))).
Defined.

(** C10. Lists of unequal lengths. The loop runs over the pairs of
    [zip(predicts, actuals)]: it raises nothing, it ends with [total]
    equal to the shorter length, and it does the same on the two lists
    cut to that length. *)
Theorem loop_zip_truncates (execute_sql_query : string -> exec_result)
    (predicts actuals : list entry) :
  (forall q, db_result (execute_sql_query q)) ->
  let n := Nat.min (List.length predicts) (List.length actuals) in
  exists st,
    loop execute_sql_query {| correct := 0; total := 0 |} (combine predicts actuals) = Ok st /\
    total st = Z.of_nat n /\
    loop execute_sql_query {| correct := 0; total := 0 |}
      (combine (firstn n predicts) (firstn n actuals)) = Ok st.
Proof.
  intros Hdb n.
  destruct (loop_total execute_sql_query Hdb (combine predicts actuals)
              {| correct := 0; total := 0 |}) as (st & Hst & _ & Ht).
  { unfold counters_ok. simpl. lia. }
  exists st. split; [exact Hst|]. split.
  - rewrite Ht. unfold len. rewrite length_combine. simpl. reflexivity.
  - rewrite <- combine_firstn. unfold n. rewrite <- length_combine, firstn_all. exact Hst.
Qed.

Lemma loop_zip_truncates_witness :
  exists st,
    loop (fun _ => ExecError "timeout") {| correct := 0; total := 0 |}
      (combine [{| SQL := "a" |}] [{| SQL := "b" |}; {| SQL := "c" |}]) = Ok st /\
    total st = 1.
Proof.
  destruct (loop_zip_truncates (fun _ => ExecError "timeout")
              [{| SQL := "a" |}] [{| SQL := "b" |}; {| SQL := "c" |}]
              (fun _ => I)) as (st & H1 & H2 & _).
  exists st. split; [exact H1 | exact H2].
Defined.

(** C8 at the input where it fails. When one of the two lists is
    empty no pair is run, [total] stays 0, and the final line divides
    by it: [ZeroDivisionError]. *)
Theorem evaluate_empty_dataset_raises (execute_sql_query : string -> exec_result)
    (entries : list entry) :
  evaluate execute_sql_query [] entries = Raise ZeroDivisionError /\
  evaluate execute_sql_query entries [] = Raise ZeroDivisionError.
Proof.
  unfold evaluate. rewrite combine_nil. simpl. split; reflexivity.
Qed.

(** On a dataset that is not empty the batch completes. *)
Lemma evaluate_completes (execute_sql_query : string -> exec_result)
    (predicts actuals : list entry) :
  (forall q, db_result (execute_sql_query q)) ->
  predicts <> [] -> actuals <> [] ->
  exists st acc,
    evaluate execute_sql_query predicts actuals = Ok (st, acc) /\
    accuracy st = Ok acc /\
    total st = Z.of_nat (Nat.min (List.length predicts) (List.length actuals)).
Proof.
  intros Hdb Hp Ha.
  destruct (loop_total execute_sql_query Hdb (combine predicts actuals)
              {| correct := 0; total := 0 |}) as (st & Hst & Hg & Ht).
  { unfold counters_ok. simpl. lia. }
  unfold len in Ht. rewrite length_combine in Ht. simpl in Ht.
  assert (Hpos : 0 < total st).
  { destruct predicts; [congruence|]. destruct actuals; [congruence|]. simpl in Ht. lia. }
  destruct st as [c t]. unfold counters_ok in Hg. simpl in *.
  destruct (accuracy_total c t Hg Hpos) as [acc Hacc].
  exists {| correct := c; total := t |}, acc.
  unfold evaluate. rewrite Hst. simpl bind at 1. rewrite Hacc. simpl.
  repeat split; assumption.
Qed.

(** When no query of a non-empty dataset yields data, the figure is 0. *)
Lemma evaluate_all_fail (execute_sql_query : string -> exec_result)
    (predicts actuals : list entry) :
  (forall q, has_data (execute_sql_query q) = false) ->
  predicts <> [] -> actuals <> [] ->
  evaluate execute_sql_query predicts actuals
  = Ok ({| correct := 0;
           total := Z.of_nat (Nat.min (List.length predicts) (List.length actuals)) |},
        Fin false 0).
Proof.
  intros Herr Hp Ha.
  assert (Hloop : forall pairs st, counters_ok st ->
            loop execute_sql_query st pairs
            = Ok {| correct := correct st; total := total st + len pairs |}).
  { induction pairs as [| [p a] pairs IH]; intros st Hst; cbn [loop].
    - unfold len. simpl. rewrite Z.add_0_r. destruct st; reflexivity.
    - rewrite step_error by (auto using Herr). cbn [bind].
      rewrite IH by (unfold counters_ok in *; simpl; lia). simpl. f_equal. f_equal.
      unfold len. simpl List.length. lia. }
  unfold evaluate. rewrite Hloop by (unfold counters_ok; simpl; lia). simpl bind at 1.
  simpl correct. simpl total. unfold len. rewrite length_combine.
  rewrite accuracy_zero; [reflexivity|].
  destruct predicts; [congruence|]. destruct actuals; [congruence|]. simpl. lia.
Qed.

(** ** The order in which a set is visited does not matter *)

Lemma forallb_perm {A} (f : A -> bool) l l' :
  Permutation l l' -> forallb f l = forallb f l'.
Proof.
  induction 1 as [| x l l' _ IH | x y l | l l' l'' _ IH1 _ IH2]; simpl.
  - reflexivity.
  - now rewrite IH.
  - now rewrite !andb_assoc, (andb_comm (f y)).
  - now rewrite IH1.
Qed.

Lemma existsb_perm {A} (f : A -> bool) l l' :
  Permutation l l' -> existsb f l = existsb f l'.
Proof.
  induction 1 as [| x l l' _ IH | x y l | l l' l'' _ IH1 _ IH2]; simpl.
  - reflexivity.
  - now rewrite IH.
  - now rewrite !orb_assoc, (orb_comm (f y)).
  - now rewrite IH1.
Qed.

Lemma forallb_ext {A} (f g : A -> bool) l :
  (forall x, f x = g x) -> forallb f l = forallb g l.
Proof. intros H. induction l as [| a l IH]; simpl; [reflexivity|]. now rewrite H, IH. Qed.

Lemma len_perm {A} (l l' : list A) : Permutation l l' -> len l = len l'.
Proof. intros H. unfold len. now rewrite (Permutation_length H). Qed.

(** The verdict depends on the two sets, not on the order in which
    their rows are stored or visited. *)
Lemma similar_sets_order res_a res_a' res_p res_p' :
  Permutation res_a res_a' -> Permutation res_p res_p' ->
  similar_sets res_a res_p = similar_sets res_a' res_p'.
Proof.
  intros Ha Hp. unfold similar_sets, set_eq. rewrite !similar_loop_eq.
  rewrite (len_perm _ _ Ha), (len_perm _ _ Hp).
  rewrite (forallb_perm _ _ _ Ha).
  rewrite (forallb_ext (fun x => mem row_eq x res_p) (fun x => mem row_eq x res_p'))
    by (intros x; apply existsb_perm, Hp).
  rewrite (forallb_perm _ _ _ Hp).
  rewrite (forallb_ext (row_matches res_a) (row_matches res_a'));
    [reflexivity|].
  intros r. unfold row_matches. now rewrite !(existsb_perm _ _ _ Ha).
Qed.
